(** * Price Floors module (modules/priceFloors.js): a shallow embedding

    The development follows the layout of the JavaScript module:
    - JavaScript primitives the module relies on (numbers, strings,
      [Array.prototype.sort], [split], [join]);
    - the rule matching engine ([enumeratePossibleFieldValues],
      [generatePossibleEnumerations], [getFirstMatchingFloor]);
    - the catalog validator ([normalizeDefault], [validateRules],
      [isFloorsDataValid]);
    - the per-auction resolver (skip sampling in
      [createFloorsDataForAuction]);
    - the enforcement hook ([shouldFloorBid], [addBidResponseHook]) and
      the public [getFloor];
    - the fetch and delay coordinator ([requestBidsHook],
      [continueAuction], [resumeDelayedAuctions]).

    JavaScript numbers are IEEE 754 binary64 values and are modelled by
    Rocq's primitive floats. Objects used as dictionaries are finite maps
    with string keys. Module-level mutable variables are threaded
    explicitly. *)

From Stdlib Require Import Floats ZArith String Ascii List Bool Arith Lia Sorted.
From stdpp Require Import base option list gmap strings.

Open Scope string_scope.
Open Scope list_scope.

(* ================================================================== *)
(** * Part I: definitions *)
(* ================================================================== *)

(** ** JavaScript numbers *)

Abbreviation number := float.

Definition NaN : number := nan.

(** [ToBoolean] on a number: [NaN], [+0] and [-0] are falsy. *)
Definition truthy (x : number) : bool := negb (is_nan x || is_zero x).

(** [ToBoolean] on a value that is [undefined] or a number. *)
Definition truthy_opt (x : option number) : bool :=
  match x with Some v => truthy v | None => false end.

(** [ToNumber] on a value that is [undefined] or a number. *)
Definition ToNumber (x : option number) : number :=
  match x with Some v => v | None => NaN end.

(** [Math.max(a, b)]: [NaN] if either argument is [NaN], [+0] is larger
    than [-0]. *)
Definition Math_max (a b : number) : number :=
  if is_nan a || is_nan b then NaN
  else if PrimFloat.ltb a b then b
  else if PrimFloat.ltb b a then a
  else if get_sign a then b else a.

(** [x || d] where [x] is [undefined] or a number and [d] a number. *)
Definition num_or (x : option number) (d : number) : number :=
  match x with
  | Some v => if truthy v then v else d
  | None => d
  end.

(** ** JavaScript strings *)

(** [x || d] where [x] is [undefined] or a string: the empty string is
    falsy. *)
Definition str_or (x : option string) (d : string) : string :=
  match x with
  | Some "" => d
  | Some s => s
  | None => d
  end.

Definition truthy_str (x : option string) : bool :=
  match x with
  | Some "" => false
  | Some _ => true
  | None => false
  end.

Definition lower_ascii (c : ascii) : ascii :=
  let n := nat_of_ascii c in
  if (65 <=? n)%nat && (n <=? 90)%nat then ascii_of_nat (n + 32) else c.

(** [String.prototype.toLowerCase], on the ASCII range. *)
Fixpoint toLowerCase (s : string) : string :=
  match s with
  | EmptyString => EmptyString
  | String c s' => String (lower_ascii c) (toLowerCase s')
  end.

(** [split_go sep skip s] scans [s] from the left. [skip] counts the
    characters of an already matched separator that are still to be
    consumed. The head of the result is the segment being read. *)
Fixpoint split_go (sep : string) (skip : nat) (s : string) : list string :=
  match s with
  | EmptyString => [EmptyString]
  | String c s' =>
      match skip with
      | S k => split_go sep k s'
      | O =>
          if String.prefix sep s
          then EmptyString :: split_go sep (String.length sep - 1) s'
          else match split_go sep 0 s' with
               | seg :: rest => String c seg :: rest
               | [] => [String c EmptyString]
               end
      end
  end.

(** [s.split(sep)] for a string separator: an empty separator splits
    into characters, otherwise the occurrences of [sep] are found from
    the left without overlap. *)
Definition split (s sep : string) : list string :=
  match sep with
  | EmptyString => map (fun c => String c EmptyString) (list_ascii_of_string s)
  | _ => split_go sep 0 s
  end.

(** [arr.join(sep)] on an array of strings. *)
Fixpoint join (sep : string) (arr : list string) : string :=
  match arr with
  | [] => EmptyString
  | [x] => x
  | x :: rest => x +:+ sep +:+ join sep rest
  end.

(** ** [Array.prototype.sort]

    The specification of the language requires the sort to be stable.
    For a comparator that is a difference of integer keys every stable
    sort returns the same array; insertion from the right computes it. *)
Fixpoint sort_insert {A} (compareFn : A -> A -> Z) (x : A) (l : list A) : list A :=
  match l with
  | [] => [x]
  | y :: l' =>
      if (compareFn x y <=? 0)%Z then x :: y :: l'
      else y :: sort_insert compareFn x l'
  end.

Fixpoint Array_sort {A} (compareFn : A -> A -> Z) (l : list A) : list A :=
  match l with
  | [] => []
  | x :: l' => sort_insert compareFn x (Array_sort compareFn l')
  end.

(** ** Fields of a schema *)

(** A field is the module-private symbol [SYN_FIELD] or a string. *)
Inductive Field : Type :=
| SYN_FIELD
| Named (name : string).

Global Instance Field_eq_dec : EqDecision Field.
Proof. solve_decision. Defined.

(** Initial value of the mutable [allowedFields] array. *)
Definition allowedFields0 : list Field :=
  [SYN_FIELD; Named "gptSlot"; Named "adUnitCode"; Named "size";
   Named "domain"; Named "mediaType"].

(** ** Bid requests and bid responses

    Only the properties read by the module are kept. [rsp_size] holds what
    [parseGPTSingleSizeArray] returns for the size of the response. *)
Record BidRequest : Type := {
  req_adUnitCode : option string;
  req_auctionId : string;
  req_bidder : string;
  (** [ortb2Imp.ext.prebid.floors.floorMin] when its [typeof] is
      ['number'], [None] otherwise. *)
  req_floorMin : option number;
}.

Record BidResponse : Type := {
  rsp_mediaType : option string;
  rsp_size : option string;
}.

(** ** Rule matching engine *)

(** The record built by [getFirstMatchingFloor]. A property that is
    [undefined] or missing is [None]. *)
Record MatchResult : Type := {
  floorMin : option number;
  floorRuleValue : option number;
  matchingData : option string;
  matchingRule : option string;
  matchingFloor : option number;
}.

(** The per-auction rule catalog ([floorData.data]). *)
Record FloorData : Type := {
  schema_fields : option (list Field);
  schema_delimiter : option string;
  values : gmap string number;
  currency : string;
  fd_floorMin : option number;
  (** [meta?.defaultRule] *)
  meta_defaultRule : option string;
  fd_skipRate : option number;
  (** the memo of the matches made so far, by memoization key *)
  matchingInputs : gmap string MatchResult;
}.

Definition set_matchingInputs (fd : FloorData) (m : gmap string MatchResult) : FloorData :=
  {| schema_fields := schema_fields fd;
     schema_delimiter := schema_delimiter fd;
     values := values fd;
     currency := currency fd;
     fd_floorMin := fd_floorMin fd;
     meta_defaultRule := meta_defaultRule fd;
     fd_skipRate := fd_skipRate fd;
     matchingInputs := m |}.

(** Modelled from the spec: the read
    [deepAccess(floorData, `matchingInputs.${matchingInput}`)]. The
    helper [deepAccess] of src/utils.js is not part of the sources at
    hand; the spec describes the property [matchingInputs] as a
    match-memoization map attached to the catalog, from memoization key
    to the record resolved for it. *)
Definition deepAccess_matchingInputs (floorData : FloorData) (matchingInput : string)
    : option MatchResult :=
  matchingInputs floorData !! matchingInput.

(** Modelled from the spec: the write
    [deepSetValue(floorData, `matchingInputs.${matchingInput}`, value)],
    with the helper [deepSetValue] of src/utils.js, under the same
    reading of the memo. *)
Definition deepSetValue_matchingInputs (floorData : FloorData) (matchingInput : string)
    (value : MatchResult) : FloorData :=
  set_matchingInputs floorData (<[matchingInput := value]> (matchingInputs floorData)).

Section Matching.

(** The mutable table [fieldMatchingFunctions]: a resolver per field,
    returning [undefined] ([None]) or a string. *)
Variable fieldMatchingFunctions :
  Field -> option BidRequest -> BidResponse -> option string.

(** [enumeratePossibleFieldValues]: the tuple [exact, catch-all] (or
    only the catch-all) of every field. *)
Definition enumeratePossibleFieldValues (floorFields : list Field)
    (bidObject : option BidRequest) (responseObject : BidResponse)
    : list (list string) :=
  map (fun field =>
         let exactMatch :=
           str_or (fieldMatchingFunctions field bidObject responseObject) "*" in
         if String.eqb exactMatch "*" then ["*"]
         else [toLowerCase exactMatch; "*"])
      floorFields.

(** The callback of the [reduce] in [generatePossibleEnumerations]. *)
Definition enumeration_step (delimiter : string)
    (accum currentVal : list string) : list string :=
  flat_map (fun obj => map (fun obj1 => obj +:+ delimiter +:+ obj1) currentVal) accum.

(** The comparator of the [sort] in [generatePossibleEnumerations]. *)
Definition star_compare (left right : string) : Z :=
  (Z.of_nat (length (split left "*")) - Z.of_nat (length (split right "*")))%Z.

(** [generatePossibleEnumerations]. [reduce] is called without an
    initial value: it throws on an empty array ([None]). *)
Definition generatePossibleEnumerations (arrayOfFields : list (list string))
    (delimiter : string) : option (list string) :=
  match arrayOfFields with
  | [] => None
  | first :: rest =>
      Some (Array_sort star_compare
              (fold_left (enumeration_step delimiter) rest first))
  end.

(** Result of one call of [getFirstMatchingFloor]: the returned
    record, the catalog with its memo as left by the call, and the
    number of times the call ran [generatePossibleEnumerations] (an
    observation counter, not a value of the program). *)
Record Lookup : Type := {
  result : MatchResult;
  floorData' : FloorData;
  enumerations : nat;
}.

(** The record returned when the schema declares no field. *)
Definition noFieldsResult : MatchResult :=
  {| floorMin := None; floorRuleValue := None; matchingData := None;
     matchingRule := None; matchingFloor := None |}.

(** The memoization key: [fieldValues.map(field => field[0]).join('-')]. *)
Definition matchingInputOf (fieldValues : list (list string)) : string :=
  join "-" (map (fun field => hd "" field) fieldValues).

(** [floorData.values[matchingRule]]: a property key that is
    [undefined] is converted to the string ["undefined"]. *)
Definition ruleValue (vals : gmap string number) (matchingRule : option string)
    : option number :=
  vals !! from_option id "undefined" matchingRule.

(** Lines 152 to 166 of the source: the record computed when the memo
    has no entry. *)
Definition computeMatch (floorData : FloorData) (bidObject : option BidRequest)
    (allPossibleMatches : list string) : MatchResult :=
  let matchingRule :=
    find (fun hashValue => bool_decide (is_Some (values floorData !! hashValue)))
         allPossibleMatches in
  let floorMin0 := num_or (fd_floorMin floorData) 0 in
  let floorRuleValue0 := ruleValue (values floorData) matchingRule in
  (* use adUnit floorMin as priority! *)
  let floorMin1 :=
    match bidObject with
    | Some b => match req_floorMin b with Some m => m | None => floorMin0 end
    | None => floorMin0
    end in
  {| floorMin := Some floorMin1;
     floorRuleValue := floorRuleValue0;
     matchingData := head allPossibleMatches;
     matchingRule :=
       if decide (matchingRule = meta_defaultRule floorData) then None
       else matchingRule;
     matchingFloor := Some (Math_max floorMin1 (ToNumber floorRuleValue0)) |}.

(** [getFirstMatchingFloor]. *)
Definition getFirstMatchingFloor (floorData : FloorData)
    (bidObject : option BidRequest) (responseObject : BidResponse) : Lookup :=
  let fieldValues :=
    enumeratePossibleFieldValues (default [] (schema_fields floorData))
      bidObject responseObject in
  match fieldValues with
  | [] => {| result := noFieldsResult; floorData' := floorData; enumerations := 0 |}
  | _ :: _ =>
      let matchingInput := matchingInputOf fieldValues in
      match deepAccess_matchingInputs floorData matchingInput with
      | Some previousMatch =>
          {| result := previousMatch; floorData' := floorData; enumerations := 0 |}
      | None =>
          (* [fieldValues] is not empty here: [reduce] does not throw *)
          let allPossibleMatches :=
            default [] (generatePossibleEnumerations fieldValues
                          (str_or (schema_delimiter floorData) "|")) in
          let matchingData0 := computeMatch floorData bidObject allPossibleMatches in
          {| result := matchingData0;
             floorData' :=
               deepSetValue_matchingInputs floorData matchingInput matchingData0;
             enumerations := 1 |}
      end
  end.

End Matching.

(** The entries of [fieldMatchingFunctions] that do not depend on the
    page, the ad server or publisher code. The remaining ones ([gptSlot],
    [domain], custom fields) are given by [other]. *)
Definition builtinMatchers
    (other : string -> option BidRequest -> BidResponse -> option string)
    (field : Field) (bidRequest : option BidRequest) (bidResponse : BidResponse)
    : option string :=
  match field with
  | SYN_FIELD => Some "*"
  | Named "size" => Some (str_or (rsp_size bidResponse) "*")
  | Named "mediaType" => Some (str_or (rsp_mediaType bidResponse) "banner")
  | Named "adUnitCode" =>
      match bidRequest with
      | Some r => if truthy_str (req_adUnitCode r) then req_adUnitCode r
                  else other "adUnitCode" bidRequest bidResponse
      | None => other "adUnitCode" bidRequest bidResponse
      end
  | Named name => other name bidRequest bidResponse
  end.

(** ** Rule catalog validator *)

(** The values a raw rule table can hold. *)
Inductive JsVal : Type :=
| JsUndefined
| JsNull
| JsNum (n : number)
| JsStr (s : string)
| JsBool (b : bool).

(** A model as received from configuration, a fetch or an ad unit. The
    [schema] object is flattened into [m_fields] and [m_delimiter]; [m_fields]
    is [None] when it is missing or not an array, [mvalues] is [None]
    when [typeof values] is not ['object']; [mdefault] and
    [modelWeight] are [None] unless they are numbers. *)
Record Model : Type := {
  mdefault : option number;
  m_fields : option (list Field);
  m_delimiter : option string;
  mvalues : option (gmap string JsVal);
  (** [meta?.defaultRule] *)
  mmeta : option string;
  modelWeight : option number;
}.

(** The top-level object handed to [isFloorsDataValid]. For schema
    version 1 the object itself is the model. [floorsSchemaVersion] is
    [None] when missing or falsy. *)
Record FloorsInput : Type := {
  floorsSchemaVersion : option nat;
  fi_model : Model;
  (** [None] when [modelGroups] is not an array *)
  modelGroups : option (list Model);
  modelWeightSum : option number;
}.

Section Validator.

(** Current value of the mutable [allowedFields] array. *)
Variable allowedFields : list Field.

(** [validateSchemaFields] *)
Definition validateSchemaFields (fs : option (list Field)) : bool :=
  match fs with
  | Some l => negb (Nat.eqb (length l) 0)
              && forallb (fun field => bool_decide (field ∈ allowedFields)) l
  | None => false
  end.

(** [isValidRule]: the keys of an object are always strings. *)
Definition isValidRule (key : string) (floor : JsVal) (numFields : nat)
    (delim : string) : bool :=
  if negb (Nat.eqb (length (split key delim)) numFields) then false
  else match floor with JsNum _ => true | _ => false end.

(** The table that [validateRules] stores back into [values]. *)
Definition filterRules (vals : gmap string JsVal) (numFields : nat)
    (delim : string) : gmap string JsVal :=
  filter (fun kv => isValidRule kv.1 kv.2 numFields delim = true) vals.

Definition set_mvalues (m : Model) (v : option (gmap string JsVal)) : Model :=
  {| mdefault := mdefault m; m_fields := m_fields m; m_delimiter := m_delimiter m;
     mvalues := v; mmeta := mmeta m; modelWeight := modelWeight m |}.

(** [validateRules]: returns the verdict and the mutated model. *)
Definition validateRules (floorsData : Model) (numFields : nat) (delim : string)
    : bool * Model :=
  match mvalues floorsData with
  | None => (false, floorsData)
  | Some vals =>
      let filtered := filterRules vals numFields delim in
      (negb (Nat.eqb (size filtered) 0), set_mvalues floorsData (Some filtered))
  end.

(** [Array(numFields).fill('*').join(delimiter)] *)
Definition wildcardRule (numFields : nat) (delim : string) : string :=
  join delim (repeat "*" numFields).

(** [model.values[defaultRule] == null] *)
Definition isNullish (v : option JsVal) : bool :=
  match v with
  | None | Some JsUndefined | Some JsNull => true
  | Some _ => false
  end.

(** [normalizeDefault] *)
Definition normalizeDefault (m : Model) : Model :=
  match mdefault m with
  | Some d =>
      let numFields := length (default [] (m_fields m)) in
      let defaultRule :=
        if Nat.eqb numFields 0 then "*"
        else wildcardRule numFields (str_or (m_delimiter m) "|") in
      let fields1 := if Nat.eqb numFields 0 then Some [SYN_FIELD] else m_fields m in
      let values1 := default ∅ (mvalues m) in
      if isNullish (values1 !! defaultRule)
      then {| mdefault := mdefault m; m_fields := fields1; m_delimiter := m_delimiter m;
              mvalues := Some (<[defaultRule := JsNum d]> values1);
              mmeta := Some defaultRule; modelWeight := modelWeight m |}
      else {| mdefault := mdefault m; m_fields := fields1; m_delimiter := m_delimiter m;
              mvalues := Some values1;
              mmeta := mmeta m; modelWeight := modelWeight m |}
  | None => m
  end.

(** [modelIsValid] *)
Definition modelIsValid (m : Model) : bool * Model :=
  let m1 := normalizeDefault m in
  if negb (validateSchemaFields (m_fields m1)) then (false, m1)
  else validateRules m1 (length (default [] (m_fields m1)))
                     (str_or (m_delimiter m1) "|").

(** The callback of [every] in the validation of schema version 2,
    folded over the groups from the left: [every] stops at the first
    group that fails and leaves the later ones untouched. *)
Fixpoint validateGroups (groups : list Model) (sum : number)
    : bool * list Model * number :=
  match groups with
  | [] => (true, [], sum)
  | g :: rest =>
      match modelWeight g with
      | None => (false, g :: rest, sum)
      | Some w =>
          let '(ok, g1) := modelIsValid g in
          if ok then
            let '(ok', rest', sum') := validateGroups rest (sum + w)%float in
            (ok', g1 :: rest', sum')
          else (false, g1 :: rest, sum)
      end
  end.

(** [isFloorsDataValid] with the table [floorsSchemaValidation]. The
    argument is an object; the verdict and the mutated object are
    returned. *)
Definition isFloorsDataValid (floorsData : FloorsInput) : bool * FloorsInput :=
  let version := default 1 (floorsSchemaVersion floorsData) in
  let fd1 := {| floorsSchemaVersion := Some version; fi_model := fi_model floorsData;
                modelGroups := modelGroups floorsData;
                modelWeightSum := modelWeightSum floorsData |} in
  match version with
  | 1 =>
      let '(ok, m1) := modelIsValid (fi_model floorsData) in
      (ok, {| floorsSchemaVersion := Some version; fi_model := m1;
              modelGroups := modelGroups floorsData;
              modelWeightSum := modelWeightSum floorsData |})
  | 2 =>
      match modelGroups floorsData with
      | None | Some [] => (false, fd1)
      | Some groups =>
          let '(ok, groups', sum) := validateGroups groups 0%float in
          (ok, {| floorsSchemaVersion := Some version; fi_model := fi_model floorsData;
                  modelGroups := Some groups'; modelWeightSum := Some sum |})
      end
  | _ => (false, fd1)
  end.

End Validator.

(** ** Auction floor resolver: the skip decision *)

Section Resolver.

(** [parseFloat] on a string (a builtin of the language). *)
Variable parseFloat : string -> number.

(** [parseFloat] on a number goes through its decimal rendering,
    which loses the sign of zero only. *)
Definition parseFloat_number (v : number) : number :=
  if is_zero v then 0%float else v.

(** The value of [auctionSkipRate]: the query parameter
    [pbjs_skipRate] (the empty string when it is absent), else
    [data.skipRate ?? skipRate]. *)
Definition auctionSkipRate (pbjs_skipRate : string)
    (dataSkipRate configSkipRate : option number) : string + option number :=
  match pbjs_skipRate with
  | EmptyString =>
      inr (match dataSkipRate with
           | Some v => Some v
           | None => configSkipRate
           end)
  | _ => inl pbjs_skipRate
  end.

Definition parseFloat_value (v : string + option number) : number :=
  match v with
  | inl s => parseFloat s
  | inr (Some n) => parseFloat_number n
  | inr None => NaN
  end.

(** [Math.random() * 100 < parseFloat(auctionSkipRate)] *)
Definition isSkipped (random : number) (pbjs_skipRate : string)
    (dataSkipRate configSkipRate : option number) : bool :=
  PrimFloat.ltb (random * 100)%float
    (parseFloat_value (auctionSkipRate pbjs_skipRate dataSkipRate configSkipRate)).

(** The [skipped] flag set by [createFloorsDataForAuction] once the
    catalog [data] of the auction is chosen; [random] is the value
    drawn by [Math.random()]. *)
Definition resolveSkipped (data : FloorData) (configSkipRate : option number)
    (pbjs_skipRate : string) (random : number) : bool :=
  if Nat.eqb (size (values data)) 0 then true
  else isSkipped random pbjs_skipRate (fd_skipRate data) configSkipRate.

End Resolver.

(** ** Floor enforcement pipeline *)

Record Enforcement : Type := {
  enforceJS : option bool;
  enforcePBS : option bool;
  floorDeals : option bool;
  bidAdjustment : option bool;
}.

(** An entry of [_floorDataForAuction]. *)
Record AuctionFloorData : Type := {
  data : FloorData;
  skipped : bool;
  enforcement : Enforcement;
}.

(** The object stored in [bid.floorData] by [addFloorDataToBid]. *)
Record BidFloorData : Type := {
  floorValue : option number;
  floorRule : option string;
  bfd_floorRuleValue : option number;
  floorCurrency : string;
  cpmAfterAdjustments : number;
  enforcements : Enforcement;
  matchedFields : list (Field * option string);
}.

(** A bid response handed to the hook. [bid_size] holds what
    [parseGPTSingleSizeArray] returns for [[bid.width, bid.height]]. *)
Record Bid : Type := {
  bid_auctionId : string;
  bidderCode : string;
  cpm : number;
  bid_currency : option string;
  originalCpm : number;
  originalCurrency : option string;
  dealId : option string;
  bid_mediaType : option string;
  bid_size : option string;
  bid_floorData : option BidFloorData;
}.

Definition set_bid_floorData (bid : Bid) (fd : BidFloorData) : Bid :=
  {| bid_auctionId := bid_auctionId bid; bidderCode := bidderCode bid;
     cpm := cpm bid; bid_currency := bid_currency bid;
     originalCpm := originalCpm bid; originalCurrency := originalCurrency bid;
     dealId := dealId bid; bid_mediaType := bid_mediaType bid;
     bid_size := bid_size bid; bid_floorData := Some fd |}.

(** Modelled from the spec: the table src/constants.json is not part of
    the sources at hand; the spec names the code used by the module a
    fixed floor-not-met reason. *)
Inductive RejectionReason : Type :=
| FLOOR_NOT_MET
| OTHER_REASON (code : string).

(** What the hook does with a bid: hand it to the next function of the
    chain, or call [reject] and return. *)
Inductive HookResult : Type :=
| Next (bid : Bid)
| Rejected (reason : RejectionReason) (bid : Bid).

Definition upper_ascii (c : ascii) : ascii :=
  let n := nat_of_ascii c in
  if (97 <=? n)%nat && (n <=? 122)%nat then ascii_of_nat (n - 32) else c.

(** [String.prototype.toUpperCase], on the ASCII range. *)
Fixpoint toUpperCase (s : string) : string :=
  match s with
  | EmptyString => EmptyString
  | String c s' => String (upper_ascii c) (toUpperCase s')
  end.

(** [str.split(separator)] where the separator may be [undefined]. *)
Definition split_opt (s : string) (sep : option string) : list string :=
  match sep with
  | Some d => split s d
  | None => [s]
  end.

(** [addFloorDataToBid] *)
Definition addFloorDataToBid (floorData : AuctionFloorData) (floorInfo : MatchResult)
    (bid : Bid) (adjustedCpm : number) : Bid :=
  let pieces :=
    split_opt (default "" (matchingData floorInfo))
              (schema_delimiter (data floorData)) in
  set_bid_floorData bid
    {| floorValue := matchingFloor floorInfo;
       floorRule := matchingRule floorInfo;
       bfd_floorRuleValue := floorRuleValue floorInfo;
       floorCurrency := currency (data floorData);
       cpmAfterAdjustments := adjustedCpm;
       enforcements := enforcement floorData;
       matchedFields :=
         imap (fun index field => (field, pieces !! index))
              (default [] (schema_fields (data floorData))) |}.

(** [shouldFloorBid]: [bid] has been through [addFloorDataToBid]. *)
Definition shouldFloorBid (floorData : AuctionFloorData) (floorInfo : MatchResult)
    (bid : Bid) : bool :=
  let enforceJS0 := negb (bool_decide (enforceJS (enforcement floorData) = Some false)) in
  let shouldFloorDeal :=
    bool_decide (floorDeals (enforcement floorData) = Some true)
    || negb (truthy_str (dealId bid)) in
  let bidBelowFloor :=
    match bid_floorData bid with
    | Some f => PrimFloat.ltb (cpmAfterAdjustments f) (ToNumber (matchingFloor floorInfo))
    | None => false
    end in
  enforceJS0 && (bidBelowFloor && shouldFloorDeal).

Definition set_data (a : AuctionFloorData) (d : FloorData) : AuctionFloorData :=
  {| data := d; skipped := skipped a; enforcement := enforcement a |}.

(** [calculateAdjustedFloor] *)
Definition calculateAdjustedFloor (oldFloor newFloor : number) : number :=
  let pow := 10000000000%float in
  (((oldFloor * pow) / (newFloor * pow) * (oldFloor * pow)) / pow)%float.

(** The parameter of [getFloor]. [rp_size] is [None] for ['*'] and
    otherwise holds what [parseGPTSingleSizeArray] makes of the size. *)
Record RequestParams : Type := {
  rp_currency : option string;
  rp_mediaType : option string;
  rp_size : option (option string);
}.

(** The media types declared on a bid request: for every key of
    [bidRequest.mediaTypes], the sizes that [getMediaTypesSizes] reads
    for it. *)
Definition MediaTypes : Type := list (string * list (option string)).

(** [updateRequestParamsFromContext] *)
Definition updateRequestParamsFromContext (mediaTypes : MediaTypes)
    (requestParams : RequestParams) : RequestParams :=
  let mediaType1 :=
    match rp_mediaType requestParams, mediaTypes with
    | Some "*", [(only, _)] => Some only
    | mt, _ => mt
    end in
  let size1 :=
    match rp_size requestParams, mediaType1 with
    | None, Some mt =>
        if (String.eqb mt "banner" || String.eqb mt "video" || String.eqb mt "native")
        then match list_find (fun kv => kv.1 = mt) mediaTypes with
             | Some (_, (_, [only])) => Some only
             | _ => None
             end
        else None
    | sz, _ => sz
    end in
  {| rp_currency := rp_currency requestParams;
     rp_mediaType := mediaType1;
     rp_size := size1 |}.

Section Enforcement.

Variable fieldMatchingFunctions :
  Field -> option BidRequest -> BidResponse -> option string.
(** [auctionManager.index.getBidRequest] *)
Variable getBidRequest : Bid -> option BidRequest.
(** [getGlobal().convertCurrency]: [None] when it throws. *)
Variable convertCurrency : number -> string -> string -> option number.
(** [getBiddersCpmAdjustment], which defers to the bidder settings. *)
Variable getBiddersCpmAdjustment : number -> option Bid -> option BidRequest -> number.
(** [bidderSettings.get(bidder, 'inverseBidAdjustment')] *)
Variable inverseBidAdjustment : string -> option (number -> BidRequest -> number).
(** [roundUp(number, 4)] *)
Variable roundUp4 : number -> number.

(** The price of the bid in the currency of the catalog, before the
    adjustment of the bidder; [None] when the conversion throws. *)
Definition cpmInFloorCurrency (floorData : AuctionFloorData) (bid : Bid)
    : option number :=
  let floorCurrency0 := toUpperCase (currency (data floorData)) in
  let bidResponseCurrency := str_or (bid_currency bid) "USD" in
  if String.eqb floorCurrency0 (toUpperCase bidResponseCurrency) then Some (cpm bid)
  else if truthy_str (originalCurrency bid)
          && String.eqb floorCurrency0
               (toUpperCase (default "" (originalCurrency bid)))
  then Some (originalCpm bid)
  else convertCurrency (cpm bid) (toUpperCase bidResponseCurrency) floorCurrency0.

(** [addBidResponseHook]: the outcome for the bid and the new value of
    [_floorDataForAuction]. *)
Definition addBidResponseHook (_floorDataForAuction : gmap string AuctionFloorData)
    (bid : Bid) : HookResult * gmap string AuctionFloorData :=
  match _floorDataForAuction !! bid_auctionId bid with
  | None => (Next bid, _floorDataForAuction)
  | Some floorData =>
      if skipped floorData then (Next bid, _floorDataForAuction)
      else
        let matchingBidRequest := getBidRequest bid in
        let lookup :=
          getFirstMatchingFloor fieldMatchingFunctions (data floorData)
            matchingBidRequest
            {| rsp_mediaType := bid_mediaType bid; rsp_size := bid_size bid |} in
        let floorInfo := result lookup in
        let floorData1 := set_data floorData (floorData' lookup) in
        let table1 := <[bid_auctionId bid := floorData1]> _floorDataForAuction in
        if negb (truthy_opt (matchingFloor floorInfo)) then (Next bid, table1)
        else
          match cpmInFloorCurrency floorData1 bid with
          | None => (Next bid, table1)
          | Some cpm0 =>
              let adjustedCpm :=
                getBiddersCpmAdjustment cpm0 (Some bid) matchingBidRequest in
              let bid1 := addFloorDataToBid floorData1 floorInfo bid adjustedCpm in
              if shouldFloorBid floorData1 floorInfo bid1
              then (Rejected FLOOR_NOT_MET bid1, table1)
              else (Next bid1, table1)
          end
  end.

(** [getFloor], called on the bid request [bidRequest] whose declared
    media types are [mediaTypes]. The empty object is [None]. *)
Definition getFloor (_floorDataForAuction : gmap string AuctionFloorData)
    (bidRequest : BidRequest) (mediaTypes : MediaTypes)
    (requestParams : RequestParams)
    : option (number * string) * gmap string AuctionFloorData :=
  match _floorDataForAuction !! req_auctionId bidRequest with
  | None => (None, _floorDataForAuction)
  | Some floorData =>
      if skipped floorData then (None, _floorDataForAuction)
      else
        let requestParams1 := updateRequestParamsFromContext mediaTypes requestParams in
        let lookup :=
          getFirstMatchingFloor fieldMatchingFunctions (data floorData)
            (Some bidRequest)
            {| rsp_mediaType := rp_mediaType requestParams1;
               rsp_size := default None (rp_size requestParams1) |} in
        let table1 :=
          <[req_auctionId bidRequest := set_data floorData (floorData' lookup)]>
            _floorDataForAuction in
        let floorCur := currency (data floorData) in
        let currency0 := str_or (rp_currency requestParams1) floorCur in
        let matchingFloor0 := matchingFloor (result lookup) in
        (* convert when the bidder asked for another currency *)
        let '(matchingFloor1, currency1) :=
          if truthy_opt matchingFloor0 && negb (String.eqb currency0 floorCur)
          then match convertCurrency (ToNumber matchingFloor0) floorCur currency0 with
               | Some converted => (Some converted, currency0)
               | None => (matchingFloor0, floorCur)
               end
          else (matchingFloor0, currency0) in
        (* run the adjustment of the bidder on a valid floor *)
        let matchingFloor2 :=
          if bool_decide (bidAdjustment (enforcement floorData) = Some true)
             && truthy_opt matchingFloor1
          then match inverseBidAdjustment (req_bidder bidRequest) with
               | Some inverseFunction =>
                   Some (inverseFunction (ToNumber matchingFloor1) bidRequest)
               | None =>
                   let cpmAdjustment :=
                     getBiddersCpmAdjustment (ToNumber matchingFloor1) None
                       (Some bidRequest) in
                   if truthy cpmAdjustment
                   then Some (calculateAdjustedFloor (ToNumber matchingFloor1) cpmAdjustment)
                   else matchingFloor1
               end
          else matchingFloor1 in
        if truthy_opt matchingFloor2
        then (Some (roundUp4 (ToNumber matchingFloor2), currency1), table1)
        else (None, table1)
  end.

End Enforcement.

(** ** Fetch and delay coordinator *)

(** The values taken by [_floorsConfig.fetchStatus]. *)
Inductive FetchStatus : Type :=
| StatusSuccess
| StatusError
| StatusTimeout.

(** A [hookConfig] object. Objects are shared between the queue
    [_delayedAuctions] and the closure of their timer, so each carries
    the address it was allocated at; [timer] is [null] or the handle
    returned by [setTimeout]. The flag [hasExited] is the one property
    written after creation and lives in the store. *)
Record HookConfig : Type := {
  address : nat;
  timer : option nat;
}.

Global Instance HookConfig_eq_dec : EqDecision HookConfig.
Proof. solve_decision. Defined.

(** The module-level variables of the coordinator, the timers of the
    event loop that the module armed, and the calls of [nextFn] made so
    far, each with the value of [fetchStatus] when it was made. *)
Record Coordinator : Type := {
  fetching : bool;
  (** whether [_floorsConfig.auctionDelay > 0] *)
  auctionDelayPositive : bool;
  fetchStatus : option FetchStatus;
  _delayedAuctions : list HookConfig;
  (** the objects whose [hasExited] is true *)
  hasExited : gset nat;
  (** the timeouts that are armed: handle and the object of the closure *)
  timers : gmap nat HookConfig;
  nextTimer : nat;
  nextAddress : nat;
  resumed : list (HookConfig * option FetchStatus);
}.

(** [continueAuction] *)
Definition continueAuction (hookConfig : HookConfig) (c : Coordinator) : Coordinator :=
  if bool_decide (address hookConfig ∈ hasExited c) then c
  else
    {| fetching := fetching c;
       auctionDelayPositive := auctionDelayPositive c;
       fetchStatus := fetchStatus c;
       _delayedAuctions :=
         filter (fun auctionConfig => timer auctionConfig ≠ timer hookConfig)
                (_delayedAuctions c);
       hasExited := {[address hookConfig]} ∪ hasExited c;
       timers := timers c;
       nextTimer := nextTimer c;
       nextAddress := nextAddress c;
       resumed := resumed c ++ [(hookConfig, fetchStatus c)] |}.

(** [requestBidsHook] *)
Definition requestBidsHook (c : Coordinator) : Coordinator :=
  if auctionDelayPositive c && fetching c then
    let hookConfig := {| address := nextAddress c; timer := Some (nextTimer c) |} in
    {| fetching := fetching c;
       auctionDelayPositive := auctionDelayPositive c;
       fetchStatus := fetchStatus c;
       _delayedAuctions := _delayedAuctions c ++ [hookConfig];
       hasExited := hasExited c;
       timers := <[nextTimer c := hookConfig]> (timers c);
       nextTimer := S (nextTimer c);
       nextAddress := S (nextAddress c);
       resumed := resumed c |}
  else
    let hookConfig := {| address := nextAddress c; timer := None |} in
    continueAuction hookConfig
      {| fetching := fetching c;
         auctionDelayPositive := auctionDelayPositive c;
         fetchStatus := fetchStatus c;
         _delayedAuctions := _delayedAuctions c;
         hasExited := hasExited c;
         timers := timers c;
         nextTimer := nextTimer c;
         nextAddress := S (nextAddress c);
         resumed := resumed c |}.

(** The callback given to [setTimeout] by [requestBidsHook], run by the
    event loop when the timer [handle] fires. A timer that is not armed
    does not fire. *)
Definition timerFires (handle : nat) (c : Coordinator) : Coordinator :=
  match timers c !! handle with
  | None => c
  | Some hookConfig =>
      continueAuction hookConfig
        {| fetching := fetching c;
           auctionDelayPositive := auctionDelayPositive c;
           fetchStatus := Some StatusTimeout;
           _delayedAuctions := _delayedAuctions c;
           hasExited := hasExited c;
           timers := delete handle (timers c);
           nextTimer := nextTimer c;
           nextAddress := nextAddress c;
           resumed := resumed c |}
  end.

(** [clearTimeout] *)
Definition clearTimeout (handle : option nat) (c : Coordinator) : Coordinator :=
  match handle with
  | None => c
  | Some h =>
      {| fetching := fetching c;
         auctionDelayPositive := auctionDelayPositive c;
         fetchStatus := fetchStatus c;
         _delayedAuctions := _delayedAuctions c;
         hasExited := hasExited c;
         timers := delete h (timers c);
         nextTimer := nextTimer c;
         nextAddress := nextAddress c;
         resumed := resumed c |}
  end.

(** [resumeDelayedAuctions]: [forEach] walks the array that
    [_delayedAuctions] held when the loop started. *)
Definition resumeDelayedAuctions (c : Coordinator) : Coordinator :=
  let c1 :=
    fold_left (fun acc auctionConfig =>
                 continueAuction auctionConfig (clearTimeout (timer auctionConfig) acc))
              (_delayedAuctions c) c in
  {| fetching := fetching c1;
     auctionDelayPositive := auctionDelayPositive c1;
     fetchStatus := fetchStatus c1;
     _delayedAuctions := [];
     hasExited := hasExited c1;
     timers := timers c1;
     nextTimer := nextTimer c1;
     nextAddress := nextAddress c1;
     resumed := resumed c1 |}.

(** The part of [handleFetchResponse] and of [handleFetchError] that
    concerns the coordinator. *)
Definition fetchSettles (status : FetchStatus) (c : Coordinator) : Coordinator :=
  resumeDelayedAuctions
    {| fetching := false;
       auctionDelayPositive := auctionDelayPositive c;
       fetchStatus := Some status;
       _delayedAuctions := _delayedAuctions c;
       hasExited := hasExited c;
       timers := timers c;
       nextTimer := nextTimer c;
       nextAddress := nextAddress c;
       resumed := resumed c |}.

(** [generateAndHandleFetch] for an endpoint with a url and the method
    GET: a request is sent unless one is in flight. *)
Definition generateAndHandleFetch (c : Coordinator) : Coordinator :=
  {| fetching := true;
     auctionDelayPositive := auctionDelayPositive c;
     fetchStatus := fetchStatus c;
     _delayedAuctions := _delayedAuctions c;
     hasExited := hasExited c;
     timers := timers c;
     nextTimer := nextTimer c;
     nextAddress := nextAddress c;
     resumed := resumed c |}.

(** The part of [handleSetFloorsConfig] that concerns the coordinator:
    [_floorsConfig] is replaced by an object built from the new
    configuration, which sets [auctionDelay] and leaves [fetchStatus]
    undefined. *)
Definition handleSetFloorsConfig (delayPositive : bool) (c : Coordinator) : Coordinator :=
  {| fetching := fetching c;
     auctionDelayPositive := delayPositive;
     fetchStatus := None;
     _delayedAuctions := _delayedAuctions c;
     hasExited := hasExited c;
     timers := timers c;
     nextTimer := nextTimer c;
     nextAddress := nextAddress c;
     resumed := resumed c |}.

(** What the event loop can run next. *)
Inductive Event : Type :=
| EvRequestBids
| EvTimer (handle : nat)
| EvFetchSuccess
| EvFetchError
| EvFetchStart
| EvSetConfig (delayPositive : bool).

Definition step (c : Coordinator) (e : Event) : Coordinator :=
  match e with
  | EvRequestBids => requestBidsHook c
  | EvTimer handle => timerFires handle c
  | EvFetchSuccess => fetchSettles StatusSuccess c
  | EvFetchError => fetchSettles StatusError c
  | EvFetchStart => generateAndHandleFetch c
  | EvSetConfig delayPositive => handleSetFloorsConfig delayPositive c
  end.

Definition run (c : Coordinator) (events : list Event) : Coordinator :=
  fold_left step events c.

(** The coordinator when the module is loaded, with the configured
    delay. *)
Definition initialCoordinator (delayPositive : bool) : Coordinator :=
  {| fetching := false;
     auctionDelayPositive := delayPositive;
     fetchStatus := None;
     _delayedAuctions := [];
     hasExited := ∅;
     timers := ∅;
     nextTimer := 1;
     nextAddress := 0;
     resumed := [] |}.

(** ** Rule table of an auction *)





(** ** Floor data stamped on the ad units *)

(** The floors object of an auction as [updateAdUnitsForAuction] reads
    it: the properties of [floorData], of [floorData.data] and of
    [floorData.enforcement] that the function looks at. The object is
    the one built by [createFloorsDataForAuction], which has set
    [skipped] to a boolean. *)
Record ResolvedFloors : Type := {
  rf_skipped : bool;
  rf_skipRate : option number;
  rf_floorMin : option number;
  rf_floorProvider : option string;
  rf_data_skipRate : option number;
  rf_data_modelVersion : option string;
  rf_data_modelWeight : option number;
  rf_data_modelTimestamp : option number;
  rf_data_location : option string;
  (** [data.noFloorSignalBidders] and [enforcement.noFloorSignalBidders],
      [None] when missing *)
  rf_data_noFloorSignalBidders : option (list string);
  rf_enforcement_noFloorSignalBidders : option (list string);
}.

(** The object stored in [bid.floorData] of a bid of an ad unit. *)
Record AdUnitBidFloorData : Type := {
  noFloorSignaled : bool;
  abf_skipped : bool;
  abf_skipRate : option number;
  abf_floorMin : option number;
  abf_modelVersion : option string;
  abf_modelWeight : option number;
  abf_modelTimestamp : option number;
  abf_location : string;
  abf_floorProvider : option string;
  abf_fetchStatus : option FetchStatus;
}.

(** A bid of an ad unit: its bidder, whether it has a property
    [getFloor], and what the module stamps on it. *)
Record AdUnitBid : Type := {
  aub_bidder : string;
  aub_getFloor : bool;
  aub_auctionId : option string;
  aub_floorData : option AdUnitBidFloorData;
}.

Record AdUnit : Type := {
  au_code : string;
  au_bids : list AdUnitBid;
}.

(** [getNoFloorSignalBidersArray] *)
Definition getNoFloorSignalBidersArray (floorData : ResolvedFloors) : list string :=
  if (0 <? length (default [] (rf_data_noFloorSignalBidders floorData)))%nat
  then default [] (rf_data_noFloorSignalBidders floorData)
  else if (0 <? length (default [] (rf_enforcement_noFloorSignalBidders floorData)))%nat
       then default [] (rf_enforcement_noFloorSignalBidders floorData)
       else [].

Section UpdateAdUnits.

(** [deepAccess(floorData, 'data.location', 'noData')]: the helper of
    src/utils.js called with a default value. *)
Variable deepAccess_location : option string -> string.
(** [_floorsConfig.fetchStatus] *)
Variable fetchStatus0 : option FetchStatus.

(** The body of the inner [forEach] of [updateAdUnitsForAuction]. *)
Definition updateBidForAuction (floorData : ResolvedFloors)
    (noFloorSignalBiddersArray : list string) (auctionId : string)
    (bid : AdUnitBid) : AdUnitBid :=
  let isNoFloorSignaled :=
    existsb (fun bidderName => String.eqb bidderName (aub_bidder bid))
            noFloorSignalBiddersArray in
  {| aub_bidder := aub_bidder bid;
     aub_getFloor := if rf_skipped floorData || isNoFloorSignaled then false else true;
     aub_auctionId := Some auctionId;
     aub_floorData :=
       Some {| noFloorSignaled := isNoFloorSignaled;
               abf_skipped := rf_skipped floorData;
               abf_skipRate :=
                 match rf_data_skipRate floorData with
                 | Some rate => Some rate
                 | None => rf_skipRate floorData
                 end;
               abf_floorMin := rf_floorMin floorData;
               abf_modelVersion := rf_data_modelVersion floorData;
               abf_modelWeight := rf_data_modelWeight floorData;
               abf_modelTimestamp := rf_data_modelTimestamp floorData;
               abf_location := deepAccess_location (rf_data_location floorData);
               abf_floorProvider := rf_floorProvider floorData;
               abf_fetchStatus := fetchStatus0 |} |}.

(** [updateAdUnitsForAuction]: the ad units as the function leaves
    them. *)
Definition updateAdUnitsForAuction (adUnits : list AdUnit)
    (floorData : ResolvedFloors) (auctionId : string) : list AdUnit :=
  let noFloorSignalBiddersArray := getNoFloorSignalBidersArray floorData in
  map (fun adUnit =>
         {| au_code := au_code adUnit;
            au_bids :=
              map (updateBidForAuction floorData noFloorSignalBiddersArray auctionId)
                  (au_bids adUnit) |})
      adUnits.

End UpdateAdUnits.

(** ** Fields defined by the publisher *)

(** A matching function of [fieldMatchingFunctions]. *)
Definition MatchingFunction : Type := option BidRequest -> BidResponse -> option string.

(** The two mutable tables that [addFieldOverrides] updates:
    [allowedFields] and [fieldMatchingFunctions]. *)
Record FieldTables : Type := {
  ft_allowedFields : list Field;
  ft_fieldMatchingFunctions : Field -> MatchingFunction;
}.

(** The callback of the [forEach] of [addFieldOverrides], for the key
    [override] whose value is a function ([Some]) or anything else
    ([None]). *)
Definition addFieldOverride (tables : FieldTables)
    (override : string * option MatchingFunction) : FieldTables :=
  match override.2 with
  | Some matchingFunction =>
      if bool_decide (Named override.1 ∈ ft_allowedFields tables) then tables
      else {| ft_allowedFields := ft_allowedFields tables ++ [Named override.1];
              ft_fieldMatchingFunctions := fun field =>
                if decide (field = Named override.1) then matchingFunction
                else ft_fieldMatchingFunctions tables field |}
  | None => tables
  end.

(** [addFieldOverrides]: [overrides] lists the entries of the object in
    the order of [Object.keys]. *)
Definition addFieldOverrides (overrides : list (string * option MatchingFunction))
    (tables : FieldTables) : FieldTables :=
  fold_left addFieldOverride overrides tables.

(** ** Vocabulary of the statements *)

(** Number of occurrences of a character. *)
Fixpoint count_char (c : ascii) (s : string) : nat :=
  match s with
  | EmptyString => 0
  | String x s' => (if Ascii.eqb x c then 1 else 0) + count_char c s'
  end.

(** The combinations of one option per field, the options of the
    left-most field varying slowest. *)
Fixpoint tuples (options : list (list string)) : list (list string) :=
  match options with
  | [] => [[]]
  | o :: rest => flat_map (fun x => map (cons x) (tuples rest)) o
  end.

(** Number of wildcard segments of a key. *)
Definition wildcards (delim key : string) : nat :=
  length (filter (fun seg => seg = "*") (split key delim)).

(** An option of a field that is the wildcard, or holds neither the
    delimiter character nor a star. *)
Definition plain_option (c : ascii) (o : string) : Prop :=
  o = "*" \/ (count_char c o = 0 /\ count_char "*" o = 0).

(** The floor minimum in force for a request: the minimum carried by the
    request when it is a number, else the one of the catalog, else 0. *)
Definition effectiveFloorMin (fd : FloorData) (bid : option BidRequest) : number :=
  match bid with
  | Some b => match req_floorMin b with
              | Some m => m
              | None => num_or (fd_floorMin fd) 0
              end
  | None => num_or (fd_floorMin fd) 0
  end.

(** The first candidate that is a key of the rule table. *)
Definition firstMatch (fd : FloorData) (candidates : list string) : option string :=
  find (fun hashValue => bool_decide (is_Some (values fd !! hashValue))) candidates.

(** Comparison of two elements by a numeric key. *)
Definition key_le {A : Type} (key : A -> nat) (a b : A) : Prop := key a <= key b.

Section StatementVocabulary.
Variable fmf : Field -> option BidRequest -> BidResponse -> option string.
Variable getBidRequest : Bid -> option BidRequest.
Variable convertCurrency : number -> string -> string -> option number.
Variable getBiddersCpmAdjustment : number -> option Bid -> option BidRequest -> number.

(** The catalog after a series of calls of [getFirstMatchingFloor]. *)
Definition afterLookups (fd : FloorData)
    (calls : list (option BidRequest * BidResponse)) : FloorData :=
  fold_left (fun d call => floorData' (getFirstMatchingFloor fmf d call.1 call.2))
            calls fd.

(** The match made by the hook for a bid. *)
Definition hookLookup (floorData : AuctionFloorData) (bid : Bid) : Lookup :=
  getFirstMatchingFloor fmf (data floorData) (getBidRequest bid)
    {| rsp_mediaType := bid_mediaType bid; rsp_size := bid_size bid |}.

(** The bid after [addFloorDataToBid], for a price [cpm0] in the
    currency of the catalog. *)
Definition annotated (floorData : AuctionFloorData) (bid : Bid) (cpm0 : number) : Bid :=
  addFloorDataToBid (set_data floorData (floorData' (hookLookup floorData bid)))
    (result (hookLookup floorData bid)) bid
    (getBiddersCpmAdjustment cpm0 (Some bid) (getBidRequest bid)).

(** What the hook does with a bid. *)
Definition hookOutcome (table : gmap string AuctionFloorData) (bid : Bid) : HookResult :=
  (addBidResponseHook fmf getBidRequest convertCurrency getBiddersCpmAdjustment
     table bid).1.

(** The condition under which the hook rejects a bid whose floor is
    [floor]. *)
Definition rejectCondition (floorData : AuctionFloorData) (bid : Bid)
    (floor : number) : Prop :=
  enforceJS (enforcement floorData) ≠ Some false
  /\ (exists cpm0,
        cpmInFloorCurrency convertCurrency floorData bid = Some cpm0
        /\ PrimFloat.ltb (getBiddersCpmAdjustment cpm0 (Some bid) (getBidRequest bid))
             floor = true)
  /\ (floorDeals (enforcement floorData) = Some true
      \/ truthy_str (dealId bid) = false).

End StatementVocabulary.

(** The all-wildcard key of a model. *)
Definition defaultRuleOf (m : Model) : string :=
  wildcardRule (length (default [] (m_fields m))) (str_or (m_delimiter m) "|").

(** A model whose numeric [default], if any, is settled: its default
    rule is among its rules, or the key of that rule is not a valid key
    for the schema and [meta.defaultRule] already names it. *)
Definition defaultSettled (m : Model) : Prop :=
  match mdefault m with
  | None => True
  | Some d =>
      (exists v, default ∅ (mvalues m) !! defaultRuleOf m = Some v)
      \/ (mmeta m = Some (defaultRuleOf m)
          /\ length (split (defaultRuleOf m) (str_or (m_delimiter m) "|"))
             ≠ length (default [] (m_fields m)))
  end.

(** The same for the models of a validated object. *)
Definition defaultsSettled (input : FloorsInput) : Prop :=
  match floorsSchemaVersion input with
  | Some 2 => Forall defaultSettled (default [] (modelGroups input))
  | _ => defaultSettled (fi_model input)
  end.






Definition withFetching (b : bool) (c : Coordinator) : Coordinator :=
  {| fetching := b;
     auctionDelayPositive := auctionDelayPositive c;
     fetchStatus := fetchStatus c;
     _delayedAuctions := _delayedAuctions c;
     hasExited := hasExited c;
     timers := timers c;
     nextTimer := nextTimer c;
     nextAddress := nextAddress c;
     resumed := resumed c |}.

(** ** Further vocabulary *)

(** The value of every field for a context as the matching engine
    compares it: lower-cased, the wildcard where the resolver gives
    nothing. *)
Definition exactValues (fmf : Field -> option BidRequest -> BidResponse -> option string)
    (floorFields : list Field) (bid : option BidRequest) (rsp : BidResponse)
    : list string :=
  map (fun field => toLowerCase (str_or (fmf field bid rsp) "*")) floorFields.

(** The match computed from scratch: the lookup on the catalog with an
    empty memo. *)
Definition freshMatch (fmf : Field -> option BidRequest -> BidResponse -> option string)
    (fd : FloorData) (bid : option BidRequest) (rsp : BidResponse) : MatchResult :=
  result (getFirstMatchingFloor fmf (set_matchingInputs fd ∅) bid rsp).

(** A context whose request carries the floor minimum [floorMinOverride]
    (or none) and whose exact values hold no dash. *)
Definition dashFree (fmf : Field -> option BidRequest -> BidResponse -> option string)
    (floorFields : list Field) (floorMinOverride : option number)
    (call : option BidRequest * BidResponse) : Prop :=
  call.1 ≫= req_floorMin = floorMinOverride
  /\ Forall (fun exact => count_char "-" exact = 0)
            (exactValues fmf floorFields call.1 call.2).

(** What holds of the catalog [fdN] reached from [fd] by lookups of such
    contexts: nothing but the memo differs, and every record of the memo
    is the fresh match of the contexts that have its key. *)
Definition memoSound (fmf : Field -> option BidRequest -> BidResponse -> option string)
    (fd : FloorData) (floorMinOverride : option number) (fdN : FloorData) : Prop :=
  (schema_fields fdN = schema_fields fd
   /\ schema_delimiter fdN = schema_delimiter fd
   /\ values fdN = values fd
   /\ fd_floorMin fdN = fd_floorMin fd
   /\ meta_defaultRule fdN = meta_defaultRule fd)
  /\ forall key previousMatch,
       matchingInputs fdN !! key = Some previousMatch ->
       forall call,
         dashFree fmf (default [] (schema_fields fd)) floorMinOverride call ->
         join "-" (exactValues fmf (default [] (schema_fields fd)) call.1 call.2) = key ->
         previousMatch = freshMatch fmf fd call.1 call.2.

(** An entry of [_floorDataForAuction] keeps its rules, schema, currency
    and flags, and every record of its memo. *)
Definition keepsRules (before after : AuctionFloorData) : Prop :=
  skipped after = skipped before
  /\ enforcement after = enforcement before
  /\ schema_fields (data after) = schema_fields (data before)
  /\ schema_delimiter (data after) = schema_delimiter (data before)
  /\ values (data after) = values (data before)
  /\ currency (data after) = currency (data before)
  /\ fd_floorMin (data after) = fd_floorMin (data before)
  /\ meta_defaultRule (data after) = meta_defaultRule (data before)
  /\ fd_skipRate (data after) = fd_skipRate (data before)
  /\ forall key previousMatch,
       matchingInputs (data before) !! key = Some previousMatch ->
       matchingInputs (data after) !! key = Some previousMatch.

(** The same for the whole table, whose auctions stay the same. *)
Definition tableKeepsRules (before after : gmap string AuctionFloorData) : Prop :=
  forall auctionId,
    match before !! auctionId, after !! auctionId with
    | Some floorData, Some floorData1 => keepsRules floorData floorData1
    | None, None => True
    | _, _ => False
    end.

(** The sum that the validation of schema version 2 accumulates, in the
    order of the groups. *)
Definition weightSum (groups : list Model) : number :=
  fold_left (fun sum g => (sum + ToNumber (modelWeight g))%float) groups 0%float.



(** The bidders that get no floor signal: the list of the data when it
    is not empty, else the list of the enforcement options. *)
Definition unsignaledBidders (floorData : ResolvedFloors) : list string :=
  match rf_data_noFloorSignalBidders floorData with
  | Some (bidder :: others) => bidder :: others
  | _ => default [] (rf_enforcement_noFloorSignalBidders floorData)
  end.







(** ** Sample data for the examples *)

(** A context for the examples: the request of an ad unit and a banner
    of 300 by 250. *)
Definition sampleRequest (code : string) (minFloor : option number) : BidRequest :=
  {| req_adUnitCode := Some code; req_auctionId := "auction-1";
     req_bidder := "bidderA"; req_floorMin := minFloor |}.

Definition sampleResponse : BidResponse :=
  {| rsp_mediaType := Some "banner"; rsp_size := Some "300x250" |}.

(** No resolver beyond the built-in ones. *)
Definition noOtherMatchers (name : string) (_ : option BidRequest)
    (_ : BidResponse) : option string := None.

(** A catalog over [mediaType] and [size] with the delimiter ["|"]. *)
Definition sampleCatalog : FloorData :=
  {| schema_fields := Some [Named "mediaType"; Named "size"];
     schema_delimiter := Some "|";
     values := {[ "banner|300x250" := 1.5%float; "banner|*" := 1%float;
                  "*|*" := 0.5%float ]};
     currency := "USD";
     fd_floorMin := None;
     meta_defaultRule := None;
     fd_skipRate := None;
     matchingInputs := ∅ |}.

(** A catalog over [mediaType] alone. *)
Definition bannerCatalog : FloorData :=
  {| schema_fields := Some [Named "mediaType"];
     schema_delimiter := Some "|";
     values := {[ "banner" := 1%float ]};
     currency := "USD";
     fd_floorMin := None;
     meta_defaultRule := None;
     fd_skipRate := None;
     matchingInputs := ∅ |}.

(** The enforcement flags that [handleSetFloorsConfig] stores when the
    configuration gives none. *)
Definition defaultEnforcement : Enforcement :=
  {| enforceJS := Some true; enforcePBS := Some false;
     floorDeals := Some false; bidAdjustment := Some true |}.

Definition auctionOf (catalog : FloorData) (flags : Enforcement)
    : gmap string AuctionFloorData :=
  {[ "auction-1" := {| data := catalog; skipped := false; enforcement := flags |} ]}.

(** A banner bid of 300 by 250 in USD. *)
Definition bannerBid (price : number) (deal : option string) : Bid :=
  {| bid_auctionId := "auction-1"; bidderCode := "bidderA"; cpm := price;
     bid_currency := Some "USD"; originalCpm := price;
     originalCurrency := Some "USD"; dealId := deal;
     bid_mediaType := Some "banner"; bid_size := Some "300x250";
     bid_floorData := None |}.

(** Collaborators for the examples: the request of the bid is the one
    of ad unit [div-1], no currency rate is known, the bidder declares
    no adjustment, and rounding leaves the value as it is. *)
Definition requestOfBid (_ : Bid) : option BidRequest :=
  Some (sampleRequest "div-1" None).

Definition noConversion (_ : number) (_ _ : string) : option number := None.

Definition noAdjustment (price : number) (_ : option Bid) (_ : option BidRequest)
  : number := price.

Definition noInverse (_ : string) : option (number -> BidRequest -> number) := None.

Definition keepValue (x : number) : number := x.

Definition sampleHook (table : gmap string AuctionFloorData) (bid : Bid) : HookResult :=
  hookOutcome (builtinMatchers noOtherMatchers) requestOfBid noConversion
    noAdjustment table bid.

(** The number written [0.99] in JavaScript. *)
Definition price_0_99 : number := 0x1.fae147ae147aep-1%float.

(** A catalog whose only rule has the floor zero. *)
Definition zeroCatalog : FloorData :=
  {| schema_fields := Some [Named "mediaType"];
     schema_delimiter := Some "|";
     values := {[ "banner" := 0%float ]};
     currency := "USD";
     fd_floorMin := None;
     meta_defaultRule := None;
     fd_skipRate := None;
     matchingInputs := ∅ |}.

(** A catalog over [adUnitCode] whose only rule is keyed by the string
    ["undefined"]; it passes [isFloorsDataValid]. *)
Definition undefinedCatalog : FloorData :=
  {| schema_fields := Some [Named "adUnitCode"];
     schema_delimiter := Some "|";
     values := {[ "undefined" := 5%float ]};
     currency := "USD";
     fd_floorMin := None;
     meta_defaultRule := None;
     fd_skipRate := None;
     matchingInputs := ∅ |}.

(** A schema-version-1 input over [mediaType] with three entries, of
    which one has two segments and one holds a string. *)
Definition mixedInput : FloorsInput :=
  {| floorsSchemaVersion := None;
     fi_model :=
       {| mdefault := None;
          m_fields := Some [Named "mediaType"];
          m_delimiter := None;
          mvalues := Some {[ "banner" := JsNum 1%float;
                              "video|640x480" := JsNum 2%float;
                              "native" := JsStr "3" ]};
          mmeta := None;
          modelWeight := None |};
     modelGroups := None;
     modelWeightSum := None |}.


(** An input whose default rule key is taken by an entry that is not a
    number. *)
Definition shadowedDefaultInput : FloorsInput :=
  {| floorsSchemaVersion := None;
     fi_model :=
       {| mdefault := Some 1%float;
          m_fields := Some [Named "mediaType"];
          m_delimiter := None;
          mvalues := Some {[ "*" := JsStr "one"; "banner" := JsNum 2%float ]};
          mmeta := None;
          modelWeight := None |};
     modelGroups := None;
     modelWeightSum := None |}.

(** A reading of [parseFloat] on the strings used below. *)
Definition parseFloatOfDigits (s : string) : number :=
  if String.eqb s "0" then 0%float
  else if String.eqb s "100" then 100%float
  else NaN.

(** The catalog of the examples with a skip rate of 100. *)
Definition alwaysSkipCatalog : FloorData :=
  {| schema_fields := schema_fields sampleCatalog;
     schema_delimiter := schema_delimiter sampleCatalog;
     values := values sampleCatalog;
     currency := currency sampleCatalog;
     fd_floorMin := None;
     meta_defaultRule := None;
     fd_skipRate := Some 100%float;
     matchingInputs := ∅ |}.

(** A schema-version-2 input with two model groups of weights 1 and 3. *)
Definition twoModelsInput : FloorsInput :=
  {| floorsSchemaVersion := Some 2;
     fi_model :=
       {| mdefault := None; m_fields := None; m_delimiter := None;
          mvalues := None; mmeta := None; modelWeight := None |};
     modelGroups :=
       Some [ {| mdefault := Some 0.25%float;
                 m_fields := Some [Named "mediaType"; Named "size"];
                 m_delimiter := None;
                 mvalues := Some {[ "banner|300x250" := JsNum 1.5%float ]};
                 mmeta := None;
                 modelWeight := Some 1%float |};
              {| mdefault := None;
                 m_fields := Some [Named "mediaType"];
                 m_delimiter := None;
                 mvalues := Some {[ "banner" := JsNum 2%float; "video" := JsNull ]};
                 mmeta := None;
                 modelWeight := Some 3%float |} ];
     modelWeightSum := None |}.




(** A catalog with two rules of one wildcard each and no exact rule
    for a banner of 300 by 250. *)
Definition crossedCatalog : FloorData :=
  {| schema_fields := Some [Named "mediaType"; Named "size"];
     schema_delimiter := Some "|";
     values := {[ "*|300x250" := 2%float; "banner|*" := 1%float;
                  "*|*" := 0.5%float ]};
     currency := "USD";
     fd_floorMin := None;
     meta_defaultRule := None;
     fd_skipRate := None;
     matchingInputs := ∅ |}.

(* ================================================================== *)
(** * Part II: properties *)
(* ================================================================== *)

(** ** Strings *)

Lemma append_cons (x : ascii) (a b : string) :
  String x a +:+ b = String x (a +:+ b).
Proof. reflexivity. Qed.

Lemma append_empty_r (s : string) : s +:+ "" = s.
Proof. induction s as [|c s IH]; [reflexivity|]. by rewrite append_cons, IH. Qed.

Lemma append_assoc (a b c : string) : (a +:+ b) +:+ c = a +:+ (b +:+ c).
Proof. induction a as [|x a IH]; [reflexivity|]. by rewrite !append_cons, IH. Qed.

Lemma count_char_append c a b :
  count_char c (a +:+ b) = count_char c a + count_char c b.
Proof.
  induction a as [|x a IH]; [reflexivity|].
  rewrite append_cons. cbn [count_char]. rewrite IH. lia.
Qed.

Lemma prefix_single c x s :
  String.prefix (String c "") (String x s) = Ascii.eqb x c.
Proof.
  cbn. destruct (ascii_dec c x) as [->|Hne].
  - rewrite Ascii.eqb_refl. by destruct s.
  - symmetry. apply Ascii.eqb_neq. congruence.
Qed.

Lemma split_go_nonempty sep k s : split_go sep k s ≠ [].
Proof.
  revert k. induction s as [|x s IH]; intros k; cbn [split_go]; [done|].
  destruct k; [|apply IH].
  destruct (String.prefix sep (String x s)); [done|].
  by destruct (split_go sep 0 s).
Qed.

(** Splitting at a single character: a segment free of the separator
    is cut off at the first separator. *)
Lemma split_single_cons c a b :
  count_char c a = 0 ->
  split (a +:+ String c b) (String c "") = a :: split b (String c "").
Proof.
  unfold split. induction a as [|x a IH]; intros Hc.
  - change ("" +:+ String c b) with (String c b).
    cbn [split_go]. rewrite prefix_single, Ascii.eqb_refl. reflexivity.
  - cbn in Hc. destruct (Ascii.eqb x c) eqn:Hx; [lia|].
    change (String x a +:+ String c b) with (String x (a +:+ String c b)).
    cbn [split_go]. rewrite prefix_single, Hx, IH by lia. reflexivity.
Qed.

Lemma split_single_whole c a :
  count_char c a = 0 -> split a (String c "") = [a].
Proof.
  unfold split. induction a as [|x a IH]; intros Hc; [reflexivity|].
  cbn in Hc. destruct (Ascii.eqb x c) eqn:Hx; [lia|].
  cbn [split_go]. rewrite prefix_single, Hx, IH by lia. reflexivity.
Qed.

(** The number of segments is one more than the number of separators. *)
Lemma length_split_single c s :
  length (split s (String c "")) = S (count_char c s).
Proof.
  unfold split. induction s as [|x s IH]; [reflexivity|].
  cbn [split_go count_char]. rewrite prefix_single.
  destruct (Ascii.eqb x c); cbn [length].
  - cbn. by rewrite IH.
  - destruct (split_go (String c "") 0 s) eqn:E; cbn in *; lia.
Qed.

Lemma join_cons_cons sep x y l :
  join sep (x :: y :: l) = x +:+ sep +:+ join sep (y :: l).
Proof. reflexivity. Qed.

Lemma join_snoc sep t x :
  t ≠ [] -> join sep (t ++ [x]) = join sep t +:+ sep +:+ x.
Proof.
  induction t as [|a t IH]; [done|]. intros _.
  destruct t as [|b t]; [reflexivity|].
  change ((a :: b :: t) ++ [x]) with (a :: (b :: t) ++ [x]).
  cbn [app]. rewrite !join_cons_cons.
  change (b :: t ++ [x]) with ((b :: t) ++ [x]). rewrite IH by done.
  by rewrite !append_assoc.
Qed.

Lemma count_char_join c sep t :
  count_char c (join sep t)
  = sum_list (map (count_char c) t) + pred (length t) * count_char c sep.
Proof.
  induction t as [|a t IH]; [reflexivity|].
  destruct t as [|b t]; [cbn; lia|].
  rewrite join_cons_cons, !count_char_append, IH. cbn [map sum_list length pred].
  unfold id. lia.
Qed.

(** Splitting undoes joining when no element holds the separator. *)
Lemma split_join_single c t :
  t ≠ [] -> Forall (fun x => count_char c x = 0) t ->
  split (join (String c "") t) (String c "") = t.
Proof.
  induction t as [|a t IH]; [done|]. intros _ Hall.
  apply Forall_cons_1 in Hall as [Ha Hall].
  destruct t as [|b t]; [by apply split_single_whole|].
  rewrite join_cons_cons.
  change (String c "" +:+ join (String c "") (b :: t))
    with (String c (join (String c "") (b :: t))).
  rewrite split_single_cons by done. f_equal. by apply IH.
Qed.

(** The primitives on the values that JavaScript gives. *)
Lemma split_examples :
  split "a|b||c" "|" = ["a"; "b"; ""; "c"]
  /\ split "" "|" = [""]
  /\ split "aXYbXYXYc" "XY" = ["a"; "b"; ""; "c"]
  /\ split "abc" "" = ["a"; "b"; "c"]
  /\ split "***" "*" = [""; ""; ""; ""]
  /\ join "-" ["banner"; "300x250"] = "banner-300x250"
  /\ toLowerCase "Div-GPT-Ad_1" = "div-gpt-ad_1".
Proof. repeat split. Qed.

Lemma Math_max_examples :
  Math_max 1 2 = 2%float
  /\ Math_max 2 1 = 2%float
  /\ Math_max (-0) 0 = 0%float
  /\ Math_max 0 (-0) = 0%float
  /\ Math_max NaN 1 = NaN
  /\ truthy 0 = false /\ truthy (-0) = false /\ truthy NaN = false
  /\ truthy 0.5 = true.
Proof. repeat split. Qed.

(** ** [Array.prototype.sort] with a comparator that subtracts keys *)

Section SortByKey.
Context {A : Type} (key : A -> nat) (compareFn : A -> A -> Z).
Hypothesis compareFn_key :
  forall x y, compareFn x y = (Z.of_nat (key x) - Z.of_nat (key y))%Z.

Lemma compareFn_le x y : (compareFn x y <=? 0)%Z = (key x <=? key y)%nat.
Proof.
  rewrite compareFn_key. destruct (Nat.leb_spec (key x) (key y)).
  - apply Z.leb_le. lia.
  - apply Z.leb_gt. lia.
Qed.

Lemma sort_insert_Permutation x l : sort_insert compareFn x l ≡ₚ x :: l.
Proof.
  induction l as [|y l IH]; cbn; [done|].
  destruct (compareFn x y <=? 0)%Z; [done|].
  rewrite IH. apply Permutation_swap.
Qed.

Lemma Array_sort_Permutation l : Array_sort compareFn l ≡ₚ l.
Proof.
  induction l as [|x l IH]; cbn; [done|].
  by rewrite sort_insert_Permutation, IH.
Qed.

Lemma sort_insert_sorted x l :
  StronglySorted (key_le key) l -> StronglySorted (key_le key) (sort_insert compareFn x l).
Proof.
  induction 1 as [|y l Hs IH Hy]; cbn; [repeat constructor|].
  rewrite compareFn_le. destruct (Nat.leb_spec (key x) (key y)) as [Hle|Hgt].
  - constructor; [by constructor|].
    constructor; [done|].
    eapply Forall_impl; [exact Hy|]. unfold key_le. intros; lia.
  - constructor; [done|].
    rewrite sort_insert_Permutation. constructor; [unfold key_le; lia|done].
Qed.

Lemma Array_sort_sorted l : StronglySorted (key_le key) (Array_sort compareFn l).
Proof.
  induction l as [|x l IH]; cbn; [constructor|]. by apply sort_insert_sorted.
Qed.

(** Stability: elements with equal keys keep their relative order. *)
Lemma sort_insert_stable n x l :
  StronglySorted (key_le key) l ->
  filter (fun a => key a = n) (sort_insert compareFn x l)
  = filter (fun a => key a = n) (x :: l).
Proof.
  induction 1 as [|y l Hs IH Hy]; cbn [sort_insert]; [done|].
  rewrite compareFn_le. destruct (Nat.leb_spec (key x) (key y)) as [Hle|Hgt]; [done|].
  rewrite filter_cons, IH, !(filter_cons _ x), (filter_cons _ y).
  destruct (decide (key y = n)) as [Hyn|Hyn]; [|done].
  destruct (decide (key x = n)) as [Hxn|Hxn]; [lia|done].
Qed.

Lemma Array_sort_stable n l :
  filter (fun a => key a = n) (Array_sort compareFn l)
  = filter (fun a => key a = n) l.
Proof.
  induction l as [|x l IH]; cbn [Array_sort]; [done|].
  rewrite sort_insert_stable by apply Array_sort_sorted.
  by rewrite !filter_cons, IH.
Qed.

End SortByKey.

(** ** Candidate keys *)

Lemma tuples_snoc (pre : list (list string)) (cur : list string) :
  tuples (pre ++ [cur])
  = flat_map (fun t => map (fun o1 => t ++ [o1]) cur) (tuples pre).
Proof.
  induction pre as [|o pre IH]; cbn [tuples app].
  - cbn [flat_map]. rewrite app_nil_r.
    induction cur as [|x cur IHc]; [done|].
    cbn [flat_map map app] in *. by f_equal.
  - rewrite IH. clear IH. induction o as [|x o IHo]; [done|].
    cbn [flat_map]. rewrite flat_map_app, IHo. f_equal.
    generalize (tuples pre) as ts. intros ts.
    induction ts as [|t ts IHt]; [done|].
    cbn [flat_map map]. rewrite map_app, IHt, map_map. reflexivity.
Qed.

Lemma tuples_length options t :
  t ∈ tuples options -> length t = length options.
Proof.
  revert t. induction options as [|o rest IH]; intros t; cbn [tuples].
  - intros ->%list_elem_of_singleton. reflexivity.
  - rewrite list_elem_of_In, in_flat_map. intros (x & _ & Hin).
    apply in_map_iff in Hin as (t' & <- & Ht'). cbn.
    f_equal. apply IH. by apply list_elem_of_In.
Qed.

Lemma tuples_Forall (P : string -> Prop) options t :
  Forall (Forall P) options -> t ∈ tuples options -> Forall P t.
Proof.
  revert t. induction options as [|o rest IH]; intros t Hall; cbn [tuples].
  - intros ->%list_elem_of_singleton. constructor.
  - apply Forall_cons_1 in Hall as [Ho Hrest].
    rewrite list_elem_of_In, in_flat_map. intros (x & Hx & Hin).
    apply in_map_iff in Hin as (t' & <- & Ht'). constructor.
    + rewrite Forall_forall in Ho. apply Ho. by apply list_elem_of_In.
    + apply IH; [done|]. by apply list_elem_of_In.
Qed.

(** The [reduce] of [generatePossibleEnumerations] builds the keys of
    the tuples, in the order of [tuples]. *)
Lemma enumeration_fold delim (pre rest : list (list string)) :
  pre ≠ [] ->
  fold_left (enumeration_step delim) rest (map (join delim) (tuples pre))
  = map (join delim) (tuples (pre ++ rest)).
Proof.
  revert pre. induction rest as [|cur rest IH]; intros pre Hpre.
  - by rewrite app_nil_r.
  - cbn [fold_left].
    replace (enumeration_step delim (map (join delim) (tuples pre)) cur)
      with (map (join delim) (tuples (pre ++ [cur]))).
    + rewrite IH by (by destruct pre). by rewrite <- app_assoc.
    + rewrite tuples_snoc. unfold enumeration_step.
      assert (Hne : Forall (fun t => t ≠ []) (tuples pre)).
      { apply Forall_forall. intros t Ht%tuples_length ->. by destruct pre. }
      induction Hne as [|t ts Ht _ IHts]; [done|].
      cbn [flat_map map]. rewrite map_app, IHts. f_equal.
      rewrite map_map. apply map_ext. intros o1. by apply join_snoc.
Qed.

Lemma tuples_singleton (first : list string) :
  tuples [first] = map (fun x => [x]) first.
Proof.
  unfold tuples. induction first as [|x l IH]; [done|].
  cbn [flat_map map app] in *. by f_equal.
Qed.

Lemma generated_keys delim first rest :
  fold_left (enumeration_step delim) rest first
  = map (join delim) (tuples (first :: rest)).
Proof.
  replace first with (map (join delim) (tuples [first])) at 1.
  - by rewrite enumeration_fold.
  - rewrite tuples_singleton, map_map. cbn [join]. apply map_id.
Qed.

(** Keys of plain options: the segments are the options, and the sort
    key of the source counts the wildcards. *)
Section PlainKeys.
Variable c : ascii.
Hypothesis c_not_star : c ≠ "*"%char.

Lemma plain_option_no_delimiter o : plain_option c o -> count_char c o = 0.
Proof.
  intros [->|[? _]]; [|done]. cbn [count_char].
  destruct (Ascii.eqb "*" c) eqn:E; [|done].
  apply Ascii.eqb_eq in E. congruence.
Qed.

Lemma plain_option_stars o :
  plain_option c o -> count_char "*" o = if decide (o = "*") then 1 else 0.
Proof.
  intros [->|[_ H]]; [done|]. rewrite H. case_decide as E; [|done].
  subst o. cbn in H. lia.
Qed.

Lemma split_plain_key t :
  t ≠ [] -> Forall (plain_option c) t ->
  split (join (String c "") t) (String c "") = t.
Proof.
  intros Hne Hall. apply split_join_single; [done|].
  eapply Forall_impl; [exact Hall|]. apply plain_option_no_delimiter.
Qed.

Lemma stars_plain_key t :
  t ≠ [] -> Forall (plain_option c) t ->
  length (split (join (String c "") t) "*")
  = S (wildcards (String c "") (join (String c "") t)).
Proof.
  intros Hne Hall. unfold wildcards. rewrite split_plain_key by done.
  rewrite (length_split_single "*"), count_char_join. f_equal.
  replace (count_char "*" (String c "")) with 0.
  - rewrite Nat.mul_0_r, Nat.add_0_r. clear Hne.
    induction Hall as [|o t Ho _ IH]; [done|].
    cbn [map sum_list]. rewrite filter_cons, IH, (plain_option_stars o Ho).
    unfold sum_list_with, id. by case_decide.
  - cbn [count_char]. destruct (Ascii.eqb c "*") eqn:E; [|done].
    apply Ascii.eqb_eq in E. congruence.
Qed.

End PlainKeys.

Lemma StronglySorted_weaken {A} (R1 R2 : A -> A -> Prop) (P : A -> Prop) l :
  (forall a b, P a -> P b -> R1 a b -> R2 a b) ->
  Forall P l -> StronglySorted R1 l -> StronglySorted R2 l.
Proof.
  intros Himp Hall Hs. induction Hs as [|a l Hs IH Ha]; [constructor|].
  apply Forall_cons_1 in Hall as [HPa Hall]. constructor; [by apply IH|].
  rewrite Forall_forall in *. intros b Hb. apply Himp; auto.
Qed.

Lemma filter_agree {A} (P Q : A -> Prop) `{!forall a, Decision (P a)}
    `{!forall a, Decision (Q a)} (l : list A) :
  Forall (fun a => P a <-> Q a) l -> filter P l = filter Q l.
Proof.
  induction 1 as [|a l Ha _ IH]; [done|].
  rewrite !filter_cons, IH. destruct (decide (P a)), (decide (Q a)); tauto.
Qed.

Lemma enumerated_options_plain fmf floorFields bid rsp c :
  (forall field, field ∈ floorFields ->
     plain_option c (toLowerCase (str_or (fmf field bid rsp) "*"))) ->
  Forall (Forall (plain_option c))
         (enumeratePossibleFieldValues fmf floorFields bid rsp).
Proof.
  intros H. unfold enumeratePossibleFieldValues. apply Forall_map, Forall_forall.
  intros field Hin. cbn beta zeta.
  destruct (String.eqb _ "*").
  - repeat constructor.
  - constructor; [by apply H|]. repeat constructor.
Qed.

(** C1, as amended. For a delimiter of one character other than the
    star, and resolved field values that are the wildcard or hold
    neither the delimiter nor a star, [generatePossibleEnumerations]
    applied to the options of the fields returns keys that all have
    [fields.length] segments, in non-decreasing number of wildcard
    segments, and keys with the same number of wildcards stay in the
    order of generation, which is the order of [tuples]: the options of
    a field to the left vary slower. *)
Theorem candidate_keys_plain
    (fmf : Field -> option BidRequest -> BidResponse -> option string)
    (floorFields : list Field) (bid : option BidRequest) (rsp : BidResponse)
    (c : ascii) :
  floorFields ≠ [] ->
  c ≠ "*"%char ->
  (forall field, field ∈ floorFields ->
     plain_option c (toLowerCase (str_or (fmf field bid rsp) "*"))) ->
  let fieldValues := enumeratePossibleFieldValues fmf floorFields bid rsp in
  let delim := String c "" in
  exists candidates,
    generatePossibleEnumerations fieldValues delim = Some candidates
    /\ Forall (fun key => length (split key delim) = length floorFields) candidates
    /\ StronglySorted (fun a b => wildcards delim a <= wildcards delim b) candidates
    /\ forall n,
         filter (fun key => wildcards delim key = n) candidates
         = filter (fun key => wildcards delim key = n)
                  (map (join delim) (tuples fieldValues)).
Proof.
  intros Hne Hc Hplain fieldValues delim.
  assert (Hopts : Forall (Forall (plain_option c)) fieldValues)
    by by apply enumerated_options_plain.
  assert (Hlen : length fieldValues = length floorFields)
    by apply length_map.
  destruct fieldValues as [|first rest] eqn:Efv.
  { destruct floorFields; [done|discriminate]. }
  set (generated := map (join delim) (tuples (first :: rest))).
  set (stars := fun key : string => length (split key "*")).
  assert (Hgen : Forall (fun key =>
                   length (split key delim) = length floorFields
                   /\ stars key = S (wildcards delim key)) generated).
  { apply Forall_map, Forall_forall. intros t Ht. cbn beta.
    pose proof (tuples_length _ _ Ht) as Htl.
    pose proof (tuples_Forall _ _ _ Hopts Ht) as Htp.
    assert (t ≠ []) by (intros ->; cbn in Htl; lia).
    split.
    - unfold delim. rewrite split_plain_key by done. lia.
    - by apply stars_plain_key. }
  exists (Array_sort star_compare generated). split; [|split; [|split]].
  - cbn [generatePossibleEnumerations]. by rewrite generated_keys.
  - rewrite Array_sort_Permutation.
    eapply Forall_impl; [exact Hgen|]. by intros key [? _].
  - eapply (StronglySorted_weaken (key_le stars) _
              (fun key => stars key = S (wildcards delim key))).
    + unfold key_le. intros a b Ha Hb. lia.
    + rewrite Array_sort_Permutation.
      eapply Forall_impl; [exact Hgen|]. by intros key [_ ?].
    + by apply (Array_sort_sorted stars).
  - intros n.
    rewrite (filter_agree (fun key => wildcards delim key = n)
                          (fun key => stars key = S n)).
    + rewrite (Array_sort_stable stars) by done.
      symmetry. apply filter_agree.
      eapply Forall_impl; [exact Hgen|]. intros key [_ ->]. lia.
    + rewrite Array_sort_Permutation.
      eapply Forall_impl; [exact Hgen|]. intros key [_ ->]. lia.
Qed.

Lemma candidate_keys_plain_witness :
  exists candidates,
    generatePossibleEnumerations
      (enumeratePossibleFieldValues (builtinMatchers noOtherMatchers)
         [Named "mediaType"; Named "size"] None sampleResponse) "|"
    = Some candidates
    /\ Forall (fun key => length (split key "|") = 2) candidates
    /\ StronglySorted (fun a b => wildcards "|" a <= wildcards "|" b) candidates
    /\ forall n,
         filter (fun key => wildcards "|" key = n) candidates
         = filter (fun key => wildcards "|" key = n)
             (map (join "|")
                (tuples (enumeratePossibleFieldValues (builtinMatchers noOtherMatchers)
                           [Named "mediaType"; Named "size"] None sampleResponse))).
Proof.
  apply (candidate_keys_plain (builtinMatchers noOtherMatchers)
           [Named "mediaType"; Named "size"] None sampleResponse "|").
  - discriminate.
  - discriminate.
  - intros field Hin.
    apply elem_of_cons in Hin as [->|Hin];
      [|apply elem_of_cons in Hin as [->|Hin]; [|by apply elem_of_nil in Hin]];
      right; split; reflexivity.
Defined.

(** C1 as stated fails on a resolved value that holds the delimiter:
    with the single field [adUnitCode] and the ad unit code ["a|b"],
    the first candidate has two segments. It also fails on a value that
    holds stars: the candidates of ["a**"] come out of the sort with
    1, 0, 2 and 1 wildcard segments. *)
Lemma candidate_keys_counterexample :
  generatePossibleEnumerations
    (enumeratePossibleFieldValues (builtinMatchers noOtherMatchers)
       [Named "adUnitCode"] (Some (sampleRequest "a|b" None)) sampleResponse) "|"
  = Some ["a|b"; "*"]
  /\ length (split "a|b" "|") <> length [Named "adUnitCode"]
  /\ generatePossibleEnumerations
       (enumeratePossibleFieldValues (builtinMatchers noOtherMatchers)
          [Named "adUnitCode"; Named "mediaType"]
          (Some (sampleRequest "a**" None)) sampleResponse) "|"
     = Some ["*|banner"; "a**|banner"; "*|*"; "a**|*"]
  /\ map (wildcards "|") ["*|banner"; "a**|banner"; "*|*"; "a**|*"] = [1; 0; 2; 1].
Proof. repeat split; vm_compute; congruence. Qed.

(** ** The memo of [getFirstMatchingFloor] *)

Section MatchingFacts.
Variable fmf : Field -> option BidRequest -> BidResponse -> option string.

Lemma enumerated_nonempty floorFields bid rsp :
  floorFields ≠ [] -> enumeratePossibleFieldValues fmf floorFields bid rsp ≠ [].
Proof. unfold enumeratePossibleFieldValues. by destruct floorFields. Qed.

(** A non-empty array of options does not make [reduce] throw. *)
Lemma generatePossibleEnumerations_total fieldValues delim :
  fieldValues ≠ [] ->
  generatePossibleEnumerations fieldValues delim
  = Some (Array_sort star_compare (map (join delim) (tuples fieldValues))).
Proof.
  destruct fieldValues as [|first rest]; [done|]. intros _.
  cbn [generatePossibleEnumerations]. by rewrite generated_keys.
Qed.

(** The call when the memo holds the key. *)
Lemma getFirstMatchingFloor_hit fd bid rsp previousMatch :
  default [] (schema_fields fd) ≠ [] ->
  matchingInputs fd
    !! matchingInputOf (enumeratePossibleFieldValues fmf
                          (default [] (schema_fields fd)) bid rsp)
  = Some previousMatch ->
  getFirstMatchingFloor fmf fd bid rsp
  = {| result := previousMatch; floorData' := fd; enumerations := 0 |}.
Proof.
  intros Hne Hmemo. unfold getFirstMatchingFloor, deepAccess_matchingInputs.
  pose proof (enumerated_nonempty _ bid rsp Hne) as Hfv.
  destruct (enumeratePossibleFieldValues _ _ _ _) as [|first rest]; [done|].
  by rewrite Hmemo.
Qed.

(** The call when the memo does not hold the key. *)
Lemma getFirstMatchingFloor_miss fd bid rsp :
  let fieldValues :=
    enumeratePossibleFieldValues fmf (default [] (schema_fields fd)) bid rsp in
  default [] (schema_fields fd) ≠ [] ->
  matchingInputs fd !! matchingInputOf fieldValues = None ->
  exists allPossibleMatches,
    generatePossibleEnumerations fieldValues (str_or (schema_delimiter fd) "|")
    = Some allPossibleMatches
    /\ getFirstMatchingFloor fmf fd bid rsp
       = {| result := computeMatch fd bid allPossibleMatches;
            floorData' :=
              set_matchingInputs fd
                (<[matchingInputOf fieldValues := computeMatch fd bid allPossibleMatches]>
                   (matchingInputs fd));
            enumerations := 1 |}.
Proof.
  intros fieldValues Hne Hmemo.
  unfold getFirstMatchingFloor, deepAccess_matchingInputs, deepSetValue_matchingInputs.
  pose proof (enumerated_nonempty _ bid rsp Hne) as Hfv.
  fold fieldValues in Hfv |- *.
  eexists. split; [by apply generatePossibleEnumerations_total|].
  destruct fieldValues as [|first rest] eqn:E; [done|].
  rewrite Hmemo, generatePossibleEnumerations_total by done. reflexivity.
Qed.

(** A call changes nothing of the catalog but its memo. *)
Lemma getFirstMatchingFloor_frame fd bid rsp :
  let fd1 := floorData' (getFirstMatchingFloor fmf fd bid rsp) in
  schema_fields fd1 = schema_fields fd
  /\ schema_delimiter fd1 = schema_delimiter fd
  /\ values fd1 = values fd
  /\ currency fd1 = currency fd
  /\ fd_floorMin fd1 = fd_floorMin fd
  /\ meta_defaultRule fd1 = meta_defaultRule fd
  /\ fd_skipRate fd1 = fd_skipRate fd.
Proof.
  unfold getFirstMatchingFloor, deepAccess_matchingInputs, deepSetValue_matchingInputs.
  destruct (enumeratePossibleFieldValues _ _ _ _); [done|].
  by destruct (matchingInputs fd !! _).
Qed.

(** An entry of the memo is never overwritten. *)
Lemma getFirstMatchingFloor_keeps fd bid rsp key previousMatch :
  matchingInputs fd !! key = Some previousMatch ->
  matchingInputs (floorData' (getFirstMatchingFloor fmf fd bid rsp)) !! key
  = Some previousMatch.
Proof.
  intros Hkey.
  unfold getFirstMatchingFloor, deepAccess_matchingInputs, deepSetValue_matchingInputs.
  destruct (enumeratePossibleFieldValues _ _ _ _) as [|first rest]; [done|].
  destruct (matchingInputs fd !! matchingInputOf _) eqn:E; [done|].
  cbn [floorData' set_matchingInputs matchingInputs].
  rewrite lookup_insert_ne; [done|]. intros Heq. rewrite Heq, Hkey in E. discriminate.
Qed.

Lemma afterLookups_keeps calls fd key previousMatch :
  matchingInputs fd !! key = Some previousMatch ->
  matchingInputs (afterLookups fmf fd calls) !! key = Some previousMatch.
Proof.
  revert fd. induction calls as [|call calls IH]; intros fd Hkey; [done|].
  unfold afterLookups in *. cbn [fold_left]. apply IH.
  by apply getFirstMatchingFloor_keeps.
Qed.

Lemma afterLookups_fields calls fd :
  schema_fields (afterLookups fmf fd calls) = schema_fields fd.
Proof.
  revert fd. induction calls as [|call calls IH]; intros fd; [done|].
  unfold afterLookups in *. cbn [fold_left]. rewrite IH.
  apply getFirstMatchingFloor_frame.
Qed.

(** After a call the memo holds the returned record under the key of
    the call. *)
Lemma getFirstMatchingFloor_stored fd bid rsp :
  default [] (schema_fields fd) ≠ [] ->
  let call := getFirstMatchingFloor fmf fd bid rsp in
  matchingInputs (floorData' call)
    !! matchingInputOf (enumeratePossibleFieldValues fmf
                          (default [] (schema_fields fd)) bid rsp)
  = Some (result call).
Proof.
  intros Hne call.
  destruct (matchingInputs fd !! matchingInputOf
              (enumeratePossibleFieldValues fmf (default [] (schema_fields fd)) bid rsp))
    as [previousMatch|] eqn:E.
  - unfold call. by rewrite (getFirstMatchingFloor_hit _ _ _ _ Hne E).
  - destruct (getFirstMatchingFloor_miss fd bid rsp Hne E) as (cands & _ & Hcall).
    unfold call. rewrite Hcall. cbn [floorData' set_matchingInputs matchingInputs result].
    apply lookup_insert_eq.
Qed.

(** C4, as amended. The memoization key joins the first value of every
    field with the fixed separator ["-"]; after a match, any later match
    on the same catalog whose fields resolve to the same first values
    returns the same record, leaves the catalog as it was, and does not
    run [generatePossibleEnumerations]. *)
Theorem memoized_match (fd : FloorData)
    (bid1 bid2 : option BidRequest) (rsp1 rsp2 : BidResponse)
    (between : list (option BidRequest * BidResponse)) :
  let floorFields := default [] (schema_fields fd) in
  let exact bid rsp :=
    map (fun field => hd "" field)
        (enumeratePossibleFieldValues fmf floorFields bid rsp) in
  floorFields ≠ [] ->
  exact bid1 rsp1 = exact bid2 rsp2 ->
  let first := getFirstMatchingFloor fmf fd bid1 rsp1 in
  let later := afterLookups fmf (floorData' first) between in
  let second := getFirstMatchingFloor fmf later bid2 rsp2 in
  matchingInputs (floorData' first) !! join "-" (exact bid1 rsp1) = Some (result first)
  /\ result second = result first
  /\ enumerations second = 0
  /\ floorData' second = later.
Proof.
  intros floorFields exact Hne Hsame first later second.
  assert (Hstored : matchingInputs (floorData' first) !! join "-" (exact bid1 rsp1)
                    = Some (result first))
    by by apply getFirstMatchingFloor_stored.
  split; [done|].
  assert (Hfields : schema_fields later = schema_fields fd).
  { unfold later. rewrite afterLookups_fields.
    apply (getFirstMatchingFloor_frame fd bid1 rsp1). }
  assert (Hhit : getFirstMatchingFloor fmf later bid2 rsp2
                 = {| result := result first; floorData' := later; enumerations := 0 |}).
  { apply getFirstMatchingFloor_hit; rewrite Hfields; [done|].
    unfold matchingInputOf. fold floorFields. fold (exact bid2 rsp2).
    rewrite <- Hsame. by apply afterLookups_keeps. }
  unfold second. by rewrite Hhit.
Qed.

End MatchingFacts.

Lemma memoized_match_witness :
  let fmf := builtinMatchers noOtherMatchers in
  let first := getFirstMatchingFloor fmf sampleCatalog None sampleResponse in
  let later := afterLookups fmf (floorData' first) [] in
  let second :=
    getFirstMatchingFloor fmf later (Some (sampleRequest "div-1" None)) sampleResponse in
  matchingInputs (floorData' first)
    !! join "-" (map (fun field => hd "" field)
                   (enumeratePossibleFieldValues fmf
                      (default [] (schema_fields sampleCatalog)) None sampleResponse))
  = Some (result first)
  /\ result second = result first
  /\ enumerations second = 0
  /\ floorData' second = later.
Proof.
  apply (memoized_match (builtinMatchers noOtherMatchers) sampleCatalog
           None (Some (sampleRequest "div-1" None)) sampleResponse sampleResponse []).
  - discriminate.
  - reflexivity.
Defined.

(** C4 as stated fails on the key: for a catalog whose delimiter is
    ["|"], the record of a banner of 300 by 250 is stored under
    ["banner-300x250"], and nothing is stored under the values joined
    with the delimiter. *)
Lemma memo_key_counterexample :
  let fmf := builtinMatchers noOtherMatchers in
  let fieldValues :=
    enumeratePossibleFieldValues fmf [Named "mediaType"; Named "size"]
      None sampleResponse in
  let first := getFirstMatchingFloor fmf sampleCatalog None sampleResponse in
  schema_delimiter sampleCatalog = Some "|"
  /\ join "|" (map (fun field => hd "" field) fieldValues) = "banner|300x250"
  /\ matchingInputs (floorData' first) !! "banner|300x250" = None
  /\ matchingInputs (floorData' first) !! "banner-300x250" = Some (result first)
  /\ matchingFloor (result first) = Some 1.5%float.
Proof. repeat split; vm_compute; reflexivity. Qed.

(** ** The record computed on a miss of the memo *)

Lemma firstMatch_Some fd candidates key :
  firstMatch fd candidates = Some key ->
  key ∈ candidates /\ exists ruleFloor, values fd !! key = Some ruleFloor.
Proof.
  intros H. apply find_some in H as [Hin Hdec].
  split; [by apply list_elem_of_In|].
  apply bool_decide_eq_true in Hdec. by destruct Hdec as [v ->]; exists v.
Qed.

Lemma firstMatch_None fd candidates key :
  firstMatch fd candidates = None -> key ∈ candidates -> values fd !! key = None.
Proof.
  intros H Hin. apply list_elem_of_In in Hin.
  pose proof (find_none _ _ H _ Hin) as Hdec. cbn beta in Hdec.
  apply bool_decide_eq_false in Hdec.
  destruct (values fd !! key) eqn:E; [|done]. by destruct Hdec.
Qed.

(** When a candidate is a key of the rule table, the floor is the larger
    of the effective minimum and the floor of the first such candidate,
    and the rule is reported unless it is the default rule. *)
Lemma computeMatch_matched fd bid candidates key :
  firstMatch fd candidates = Some key ->
  exists ruleFloor,
    values fd !! key = Some ruleFloor
    /\ floorRuleValue (computeMatch fd bid candidates) = Some ruleFloor
    /\ floorMin (computeMatch fd bid candidates) = Some (effectiveFloorMin fd bid)
    /\ matchingFloor (computeMatch fd bid candidates)
       = Some (Math_max (effectiveFloorMin fd bid) ruleFloor)
    /\ matchingRule (computeMatch fd bid candidates)
       = if decide (Some key = meta_defaultRule fd) then None else Some key.
Proof.
  intros Hfind. destruct (firstMatch_Some _ _ _ Hfind) as (_ & ruleFloor & Hval).
  exists ruleFloor. unfold computeMatch. fold (firstMatch fd candidates).
  rewrite Hfind. unfold ruleValue. cbn [from_option id].
  rewrite Hval. cbn [ToNumber floorRuleValue floorMin matchingFloor matchingRule].
  repeat split; try done; unfold effectiveFloorMin;
    by destruct bid as [b|]; [destruct (req_floorMin b)|].
Qed.

Lemma Math_max_NaN_r (a : number) : Math_max a NaN = NaN.
Proof. unfold Math_max. by rewrite orb_true_r. Qed.

(** When no candidate is a key of the rule table and the table has no
    property named ["undefined"], the floor is [NaN], whatever the
    minimum. *)
Lemma computeMatch_unmatched fd bid candidates :
  firstMatch fd candidates = None ->
  values fd !! "undefined" = None ->
  matchingFloor (computeMatch fd bid candidates) = Some NaN
  /\ matchingRule (computeMatch fd bid candidates) = None
  /\ floorRuleValue (computeMatch fd bid candidates) = None.
Proof.
  intros Hfind Hundef. unfold computeMatch. fold (firstMatch fd candidates).
  rewrite Hfind. unfold ruleValue. cbn [from_option].
  rewrite Hundef. cbn [ToNumber floorRuleValue matchingFloor matchingRule].
  rewrite Math_max_NaN_r. repeat split. by case_decide.
Qed.

(** The two lemmas above, for a call of [getFirstMatchingFloor] that
    misses the memo. *)
Lemma getFirstMatchingFloor_computed fmf fd bid rsp :
  let fieldValues :=
    enumeratePossibleFieldValues fmf (default [] (schema_fields fd)) bid rsp in
  default [] (schema_fields fd) ≠ [] ->
  matchingInputs fd !! matchingInputOf fieldValues = None ->
  exists candidates,
    generatePossibleEnumerations fieldValues (str_or (schema_delimiter fd) "|")
    = Some candidates
    /\ result (getFirstMatchingFloor fmf fd bid rsp) = computeMatch fd bid candidates.
Proof.
  intros fieldValues Hne Hmiss.
  destruct (getFirstMatchingFloor_miss fmf fd bid rsp Hne Hmiss) as (cands & Hgen & Hcall).
  exists cands. split; [done|]. by rewrite Hcall.
Qed.

(** C5 at a failing input. Two requests of one auction resolve to the
    same field values; the first carries the floor minimum 5, the second
    the floor minimum 2. The rule ["banner"], of floor 1, is a key of
    the catalog. The second call is served from the memo: it returns the
    minimum and the floor of the first request, 5, where the claim
    gives max(2, 1) = 2. *)
Theorem floorMin_override_lost_on_memo_hit :
  let fmf := builtinMatchers noOtherMatchers in
  let first :=
    getFirstMatchingFloor fmf bannerCatalog
      (Some (sampleRequest "div-1" (Some 5%float))) sampleResponse in
  let second :=
    getFirstMatchingFloor fmf (floorData' first)
      (Some (sampleRequest "div-2" (Some 2%float))) sampleResponse in
  values bannerCatalog !! "banner" = Some 1%float
  /\ matchingFloor (result first) = Some 5%float
  /\ enumerations second = 0
  /\ floorMin (result second) = Some 5%float
  /\ matchingFloor (result second) = Some 5%float
  /\ Math_max (effectiveFloorMin bannerCatalog (Some (sampleRequest "div-2" (Some 2%float))))
              1%float = 2%float.
Proof. repeat split; vm_compute; reflexivity. Qed.

(** The example of the specification: over [mediaType] and [size] with
    the rules ["banner|300x250"] at 1.5, ["banner|*"] at 1 and ["*|*"]
    at 0.5, a banner of 300 by 250 matches 1.5, a banner of 640 by 480
    matches 1, and a video matches 0.5. *)
Lemma matching_examples :
  let fmf := builtinMatchers noOtherMatchers in
  let floorOf media size :=
    matchingFloor
      (result (getFirstMatchingFloor fmf sampleCatalog None
                 {| rsp_mediaType := Some media; rsp_size := Some size |})) in
  floorOf "banner" "300x250" = Some 1.5%float
  /\ floorOf "banner" "640x480" = Some 1%float
  /\ floorOf "video" "640x480" = Some 0.5%float.
Proof. repeat split; vm_compute; reflexivity. Qed.

(** ** The enforcement hook *)

Section EnforcementFacts.
Variable fmf : Field -> option BidRequest -> BidResponse -> option string.
Variable getBidRequest : Bid -> option BidRequest.
Variable convertCurrency : number -> string -> string -> option number.
Variable getBiddersCpmAdjustment : number -> option Bid -> option BidRequest -> number.

Local Abbreviation lookupOf := (hookLookup fmf getBidRequest).
Local Abbreviation annotatedBid :=
  (annotated fmf getBidRequest getBiddersCpmAdjustment).
Local Abbreviation outcomeOf :=
  (hookOutcome fmf getBidRequest convertCurrency getBiddersCpmAdjustment).
Local Abbreviation rejects :=
  (rejectCondition getBidRequest convertCurrency getBiddersCpmAdjustment).

Lemma cpmInFloorCurrency_frame floorData bid :
  cpmInFloorCurrency convertCurrency
    (set_data floorData (floorData' (lookupOf floorData bid))) bid
  = cpmInFloorCurrency convertCurrency floorData bid.
Proof.
  unfold cpmInFloorCurrency, hookLookup. cbn [data set_data].
  by destruct (getFirstMatchingFloor_frame fmf (data floorData) (getBidRequest bid)
      {| rsp_mediaType := bid_mediaType bid; rsp_size := bid_size bid |})
    as (_ & _ & _ & -> & _).
Qed.



(** A floor that is falsy ([undefined], [NaN] or zero) lets the bid
    through as it came. *)
Lemma hook_falsy_floor table bid floorData :
  table !! bid_auctionId bid = Some floorData ->
  skipped floorData = false ->
  truthy_opt (matchingFloor (result (lookupOf floorData bid))) = false ->
  outcomeOf table bid = Next bid.
Proof.
  intros H Hs Hf. unfold hookOutcome, addBidResponseHook.
  rewrite H, Hs. fold (lookupOf floorData bid). by rewrite Hf.
Qed.

(** A failed conversion lets the bid through as it came. *)
Lemma hook_conversion_fails table bid floorData :
  table !! bid_auctionId bid = Some floorData ->
  skipped floorData = false ->
  truthy_opt (matchingFloor (result (lookupOf floorData bid))) = true ->
  cpmInFloorCurrency convertCurrency floorData bid = None ->
  outcomeOf table bid = Next bid.
Proof.
  intros H Hs Hf Hc. unfold hookOutcome, addBidResponseHook.
  rewrite H, Hs. fold (lookupOf floorData bid).
  by rewrite Hf, cpmInFloorCurrency_frame, Hc.
Qed.

(** Otherwise the bid is annotatedBid and compared with the floor. *)
Lemma hook_compares table bid floorData cpm0 :
  table !! bid_auctionId bid = Some floorData ->
  skipped floorData = false ->
  truthy_opt (matchingFloor (result (lookupOf floorData bid))) = true ->
  cpmInFloorCurrency convertCurrency floorData bid = Some cpm0 ->
  outcomeOf table bid
  = if shouldFloorBid (set_data floorData (floorData' (lookupOf floorData bid)))
         (result (lookupOf floorData bid)) (annotatedBid floorData bid cpm0)
    then Rejected FLOOR_NOT_MET (annotatedBid floorData bid cpm0)
    else Next (annotatedBid floorData bid cpm0).
Proof.
  intros H Hs Hf Hc. unfold hookOutcome, addBidResponseHook.
  rewrite H, Hs. fold (lookupOf floorData bid).
  rewrite Hf, cpmInFloorCurrency_frame, Hc. cbn [negb].
  fold (annotatedBid floorData bid cpm0).
  by destruct (shouldFloorBid _ _ _).
Qed.

Lemma shouldFloorBid_annotated floorData bid cpm0 floor :
  matchingFloor (result (lookupOf floorData bid)) = Some floor ->
  shouldFloorBid (set_data floorData (floorData' (lookupOf floorData bid)))
    (result (lookupOf floorData bid)) (annotatedBid floorData bid cpm0) = true
  <-> enforceJS (enforcement floorData) ≠ Some false
      /\ PrimFloat.ltb (getBiddersCpmAdjustment cpm0 (Some bid) (getBidRequest bid))
           floor = true
      /\ (floorDeals (enforcement floorData) = Some true
          \/ truthy_str (dealId bid) = false).
Proof.
  intros Hfloor. unfold shouldFloorBid, annotated, addFloorDataToBid, set_bid_floorData.
  cbn [bid_floorData cpmAfterAdjustments enforcement set_data dealId].
  rewrite Hfloor. cbn [ToNumber].
  rewrite !andb_true_iff, orb_true_iff, negb_true_iff.
  rewrite bool_decide_eq_false, bool_decide_eq_true, negb_true_iff. tauto.
Qed.

(** C2. For a bid of an auction with floor data that is not skipped and
    a matched floor that is a number other than zero, the hook rejects
    the bid if and only if [enforceJS] is not [false], the price of the
    bid in the currency of the catalog, after the adjustment of the
    bidder, is strictly below the floor, and [floorDeals] is [true] or
    the bid has no deal id. The reason is always [FLOOR_NOT_MET].
    Otherwise the bid goes to the next function of the chain, with
    nothing changed but the floor data recorded on it. *)
Theorem enforcement_decision (table : gmap string AuctionFloorData) (bid : Bid)
    (floorData : AuctionFloorData) (floor : number) :
  table !! bid_auctionId bid = Some floorData ->
  skipped floorData = false ->
  matchingFloor (result (lookupOf floorData bid)) = Some floor ->
  truthy floor = true ->
  ((exists bid', outcomeOf table bid = Rejected FLOOR_NOT_MET bid')
   <-> rejects floorData bid floor)
  /\ (forall reason bid',
        outcomeOf table bid = Rejected reason bid' -> reason = FLOOR_NOT_MET)
  /\ (~ rejects floorData bid floor ->
      outcomeOf table bid = Next bid
      \/ exists recorded, outcomeOf table bid = Next (set_bid_floorData bid recorded)).
Proof.
  intros Htable Hskip Hfloor Htruthy.
  assert (Hf : truthy_opt (matchingFloor (result (lookupOf floorData bid))) = true)
    by by rewrite Hfloor.
  destruct (cpmInFloorCurrency convertCurrency floorData bid) as [cpm0|] eqn:Hcpm.
  - pose proof (hook_compares table bid floorData cpm0 Htable Hskip Hf Hcpm) as Hout.
    pose proof (shouldFloorBid_annotated floorData bid cpm0 floor Hfloor) as Hshould.
    assert (Hcond : rejects floorData bid floor
                    <-> shouldFloorBid
                          (set_data floorData (floorData' (lookupOf floorData bid)))
                          (result (lookupOf floorData bid))
                          (annotatedBid floorData bid cpm0) = true).
    { rewrite Hshould. unfold rejectCondition. rewrite Hcpm. split.
      - intros (? & (c & [= <-] & ?) & ?). done.
      - intros (? & ? & ?). eauto 6. }
    destruct (shouldFloorBid _ _ _) eqn:E; rewrite Hout.
    + split; [|split].
      * split; [tauto|eauto].
      * congruence.
      * intros Hn. exfalso. tauto.
    + split; [|split].
      * split; [intros [? [=]]|]. intros Hc. apply Hcond in Hc. discriminate.
      * congruence.
      * intros _. right. eexists. reflexivity.
  - rewrite (hook_conversion_fails table bid floorData Htable Hskip Hf Hcpm).
    split; [|split].
    + split; [intros [? [=]]|]. intros (_ & (c & Hc & _) & _). congruence.
    + congruence.
    + by left.
Qed.

(** C7, as amended. For a bid of an auction with floor data that is not
    skipped: when the matched floor is falsy, because no rule matched
    or because the floor is zero, the bid passes through as it came and
    nothing is recorded on it; when the floor is truthy and the price
    cannot be converted, likewise; when the floor is truthy and the
    price is known, the bid that is accepted or rejected carries the
    floor, the rule (none for the default rule), the floor of the rule,
    the currency, the adjusted price, the enforcement flags and the
    matched value of every field. *)
Theorem floor_context (table : gmap string AuctionFloorData) (bid : Bid)
    (floorData : AuctionFloorData) :
  table !! bid_auctionId bid = Some floorData ->
  skipped floorData = false ->
  let floorInfo := result (lookupOf floorData bid) in
  (truthy_opt (matchingFloor floorInfo) = false -> outcomeOf table bid = Next bid)
  /\ (truthy_opt (matchingFloor floorInfo) = true ->
      cpmInFloorCurrency convertCurrency floorData bid = None ->
      outcomeOf table bid = Next bid)
  /\ (truthy_opt (matchingFloor floorInfo) = true ->
      forall cpm0, cpmInFloorCurrency convertCurrency floorData bid = Some cpm0 ->
      exists bid',
        (outcomeOf table bid = Next bid'
         \/ outcomeOf table bid = Rejected FLOOR_NOT_MET bid')
        /\ bid_floorData bid'
           = Some {| floorValue := matchingFloor floorInfo;
                     floorRule := matchingRule floorInfo;
                     bfd_floorRuleValue := floorRuleValue floorInfo;
                     floorCurrency := currency (data floorData);
                     cpmAfterAdjustments :=
                       getBiddersCpmAdjustment cpm0 (Some bid) (getBidRequest bid);
                     enforcements := enforcement floorData;
                     matchedFields :=
                       imap (fun index field =>
                               (field,
                                split_opt (default "" (matchingData floorInfo))
                                  (schema_delimiter (data floorData)) !! index))
                            (default [] (schema_fields (data floorData))) |}).
Proof.
  intros Htable Hskip floorInfo. split; [|split].
  - by apply hook_falsy_floor.
  - by apply hook_conversion_fails.
  - intros Hf cpm0 Hcpm. exists (annotatedBid floorData bid cpm0). split.
    + rewrite (hook_compares table bid floorData cpm0 Htable Hskip Hf Hcpm).
      destruct (shouldFloorBid _ _ _); auto.
    + unfold annotated, addFloorDataToBid, set_bid_floorData.
      cbn [bid_floorData data set_data enforcement]. fold floorInfo.
      destruct (getFirstMatchingFloor_frame fmf (data floorData) (getBidRequest bid)
                  {| rsp_mediaType := bid_mediaType bid; rsp_size := bid_size bid |})
        as (Hfields & Hdelim & _ & Hcur & _).
      fold (lookupOf floorData bid) in Hfields, Hdelim, Hcur.
      by rewrite Hfields, Hdelim, Hcur.
Qed.

End EnforcementFacts.

Section GetFloorFacts.
Variable fmf : Field -> option BidRequest -> BidResponse -> option string.
Variable convertCurrency : number -> string -> string -> option number.
Variable getBiddersCpmAdjustment : number -> option Bid -> option BidRequest -> number.
Variable inverseBidAdjustment : string -> option (number -> BidRequest -> number).
Variable roundUp4 : number -> number.

(** A falsy floor makes [getFloor] return the empty object. *)
Lemma getFloor_falsy_floor table bidRequest mediaTypes requestParams floorData :
  table !! req_auctionId bidRequest = Some floorData ->
  skipped floorData = false ->
  let requestParams1 := updateRequestParamsFromContext mediaTypes requestParams in
  truthy_opt
    (matchingFloor
       (result (getFirstMatchingFloor fmf (data floorData) (Some bidRequest)
                  {| rsp_mediaType := rp_mediaType requestParams1;
                     rsp_size := default None (rp_size requestParams1) |}))) = false ->
  (getFloor fmf convertCurrency getBiddersCpmAdjustment inverseBidAdjustment roundUp4
     table bidRequest mediaTypes requestParams).1 = None.
Proof.
  intros Htable Hskip requestParams1 Hf. unfold getFloor.
  rewrite Htable, Hskip. cbv zeta. fold requestParams1.
  set (floorInfo := getFirstMatchingFloor _ _ _ _) in *.
  rewrite Hf. cbn [andb]. rewrite Hf, andb_false_r, Hf. reflexivity.
Qed.

End GetFloorFacts.

(** ** Enforcement on concrete bids *)

Lemma enforcement_decision_witness :
  let table := auctionOf bannerCatalog defaultEnforcement in
  let bid := bannerBid price_0_99 None in
  let floorData :=
    {| data := bannerCatalog; skipped := false; enforcement := defaultEnforcement |} in
  ((exists bid', sampleHook table bid = Rejected FLOOR_NOT_MET bid')
   <-> rejectCondition requestOfBid noConversion noAdjustment floorData bid 1%float)
  /\ (forall reason bid',
        sampleHook table bid = Rejected reason bid' -> reason = FLOOR_NOT_MET)
  /\ (~ rejectCondition requestOfBid noConversion noAdjustment floorData bid 1%float ->
      sampleHook table bid = Next bid
      \/ exists recorded, sampleHook table bid = Next (set_bid_floorData bid recorded)).
Proof.
  apply (enforcement_decision (builtinMatchers noOtherMatchers) requestOfBid
           noConversion noAdjustment
           (auctionOf bannerCatalog defaultEnforcement) (bannerBid price_0_99 None)
           {| data := bannerCatalog; skipped := false; enforcement := defaultEnforcement |}
           1%float).
  - vm_compute. reflexivity.
  - reflexivity.
  - vm_compute. reflexivity.
  - reflexivity.
Defined.

(** The scenario of the specification: a bid of 0.99 against a floor of
    1 is rejected; with a deal id and [floorDeals] false it is accepted;
    with [enforceJS] false it is accepted. *)
Lemma enforcement_scenario :
  (exists bid', sampleHook (auctionOf bannerCatalog defaultEnforcement)
                  (bannerBid price_0_99 None) = Rejected FLOOR_NOT_MET bid')
  /\ (exists bid', sampleHook (auctionOf bannerCatalog defaultEnforcement)
                     (bannerBid price_0_99 (Some "deal-7")) = Next bid')
  /\ (exists bid', sampleHook
                     (auctionOf bannerCatalog
                        {| enforceJS := Some false; enforcePBS := Some false;
                           floorDeals := Some false; bidAdjustment := Some true |})
                     (bannerBid price_0_99 None) = Next bid').
Proof. repeat split; eexists; vm_compute; reflexivity. Qed.

Lemma floor_context_witness :
  let table := auctionOf bannerCatalog defaultEnforcement in
  let bid := bannerBid 2%float None in
  exists bid',
    (sampleHook table bid = Next bid' \/ sampleHook table bid = Rejected FLOOR_NOT_MET bid')
    /\ bid_floorData bid'
       = Some {| floorValue := Some 1%float; floorRule := Some "banner";
                 bfd_floorRuleValue := Some 1%float; floorCurrency := "USD";
                 cpmAfterAdjustments := 2%float;
                 enforcements := defaultEnforcement;
                 matchedFields := [(Named "mediaType", Some "banner")] |}.
Proof.
  pose proof (floor_context (builtinMatchers noOtherMatchers) requestOfBid
                noConversion noAdjustment
                (auctionOf bannerCatalog defaultEnforcement) (bannerBid 2%float None)
                {| data := bannerCatalog; skipped := false;
                   enforcement := defaultEnforcement |}) as H.
  destruct H as (_ & _ & H).
  - vm_compute. reflexivity.
  - reflexivity.
  - apply (H eq_refl 2%float eq_refl).
Defined.

(** C7 as stated fails on a rule of floor zero: the rule ["banner"]
    matches, yet the bid goes to the next function as it came, with no
    floor data recorded on it. *)
Lemma zero_floor_counterexample :
  let table := auctionOf zeroCatalog defaultEnforcement in
  let bid := bannerBid 1%float None in
  let floorInfo :=
    result (hookLookup (builtinMatchers noOtherMatchers) requestOfBid
              {| data := zeroCatalog; skipped := false;
                 enforcement := defaultEnforcement |} bid) in
  matchingRule floorInfo = Some "banner"
  /\ floorRuleValue floorInfo = Some 0%float
  /\ matchingFloor floorInfo = Some 0%float
  /\ sampleHook table bid = Next bid
  /\ bid_floorData bid = None.
Proof. repeat split; vm_compute; reflexivity. Qed.

(** ** A context that matches no rule *)

(** When the memo has no entry for the context, no candidate is a key
    of the rule table, and the table has no property named
    ["undefined"], the floor is [NaN]: [getFloor] returns the empty
    object and the hook lets the bid through, whatever the floor
    minimum of the catalog or of the request. *)
Lemma unmatched_context_has_no_floor
    (fmf : Field -> option BidRequest -> BidResponse -> option string)
    (fd : FloorData) (bid : option BidRequest) (rsp : BidResponse) :
  let fieldValues :=
    enumeratePossibleFieldValues fmf (default [] (schema_fields fd)) bid rsp in
  default [] (schema_fields fd) ≠ [] ->
  matchingInputs fd !! matchingInputOf fieldValues = None ->
  (forall candidates,
     generatePossibleEnumerations fieldValues (str_or (schema_delimiter fd) "|")
     = Some candidates ->
     firstMatch fd candidates = None) ->
  values fd !! "undefined" = None ->
  matchingFloor (result (getFirstMatchingFloor fmf fd bid rsp)) = Some NaN
  /\ truthy_opt (matchingFloor (result (getFirstMatchingFloor fmf fd bid rsp))) = false.
Proof.
  intros fieldValues Hne Hmiss Hnone Hundef.
  destruct (getFirstMatchingFloor_computed fmf fd bid rsp Hne Hmiss)
    as (candidates & Hgen & ->).
  destruct (computeMatch_unmatched fd bid candidates (Hnone _ Hgen) Hundef) as (-> & _).
  done.
Qed.

(** C10 at a failing input. For the ad unit [div-1] the candidates are
    ["div-1"] and ["*"]; neither is a key of the catalog, so
    [matchingRule] is [undefined]; the rule table is then read at the
    property ["undefined"], which holds 5. The floor is 5, not [NaN]:
    [getFloor] returns it and the hook rejects a bid of 1. *)
Theorem unmatched_context_reads_undefined_rule :
  let fmf := builtinMatchers noOtherMatchers in
  let request := sampleRequest "div-1" None in
  let fieldValues :=
    enumeratePossibleFieldValues fmf [Named "adUnitCode"] (Some request) sampleResponse in
  let table := auctionOf undefinedCatalog defaultEnforcement in
  generatePossibleEnumerations fieldValues "|" = Some ["div-1"; "*"]
  /\ firstMatch undefinedCatalog ["div-1"; "*"] = None
  /\ matchingFloor
       (result (getFirstMatchingFloor fmf undefinedCatalog (Some request) sampleResponse))
     = Some 5%float
  /\ (getFloor fmf noConversion noAdjustment noInverse keepValue table request []
        {| rp_currency := Some "USD"; rp_mediaType := Some "*"; rp_size := None |}).1
     = Some (5%float, "USD")
  /\ exists bid', sampleHook table (bannerBid 1%float None) = Rejected FLOOR_NOT_MET bid'.
Proof. repeat split; try eexists; vm_compute; reflexivity. Qed.

(** ** The validator *)

Section ValidatorFacts.
Variable allowedFields : list Field.

Lemma validateSchemaFields_true fs :
  validateSchemaFields allowedFields fs = true
  <-> exists l, fs = Some l /\ l ≠ [] /\ Forall (fun field => field ∈ allowedFields) l.
Proof.
  unfold validateSchemaFields. destruct fs as [l|].
  - rewrite andb_true_iff, negb_true_iff, Nat.eqb_neq, forallb_forall. split.
    + intros [Hlen Hall]. exists l. split; [done|]. split; [by destruct l|].
      apply Forall_forall. intros field Hin. apply list_elem_of_In in Hin.
      specialize (Hall field Hin). by apply bool_decide_eq_true in Hall.
    + intros (l' & [= <-] & Hne & Hall). split; [by destruct l|].
      rewrite Forall_forall in Hall.
      intros field Hin. apply bool_decide_eq_true. apply Hall. by apply list_elem_of_In.
  - split; [done|]. by intros (l & [=] & _).
Qed.

Lemma isValidRule_true key floor numFields delim :
  isValidRule key floor numFields delim = true
  <-> length (split key delim) = numFields /\ exists n, floor = JsNum n.
Proof.
  unfold isValidRule. destruct (Nat.eqb_spec (length (split key delim)) numFields).
  - cbn [negb]. destruct floor; split; try done; try (by intros [_ [? [=]]]); eauto.
  - cbn [negb]. split; [done|]. by intros [? _].
Qed.

(** The table kept by [validateRules] holds the entries of the table it
    was given that are valid rules, and no other. *)
Lemma filterRules_lookup vals numFields delim key v :
  filterRules vals numFields delim !! key = Some v
  <-> vals !! key = Some v
      /\ length (split key delim) = numFields /\ exists n, v = JsNum n.
Proof.
  unfold filterRules. rewrite map_lookup_filter_Some. cbn [fst snd].
  by rewrite isValidRule_true.
Qed.

Lemma filterRules_idempotent vals numFields delim :
  filterRules (filterRules vals numFields delim) numFields delim
  = filterRules vals numFields delim.
Proof.
  unfold filterRules at 1. apply map_filter_id. intros key v Hkv.
  apply filterRules_lookup in Hkv as (_ & Hlen & Hnum). cbn [fst snd].
  by apply isValidRule_true.
Qed.





End ValidatorFacts.



(** ** Validating again *)

Section RevalidationFacts.
Variable allowedFields : list Field.

Lemma filterRules_insert_invalid vals numFields delim key v :
  vals !! key = None ->
  length (split key delim) ≠ numFields ->
  filterRules (<[key := v]> vals) numFields delim = filterRules vals numFields delim.
Proof.
  intros Hnone Hlen. unfold filterRules. apply map_filter_insert_not'.
  - cbn [fst snd]. rewrite isValidRule_true. by intros [? _].
  - intros y Hy. congruence.
Qed.

Lemma isNullish_filterRules vals numFields delim key :
  isNullish (filterRules vals numFields delim !! key) = true
  <-> filterRules vals numFields delim !! key = None.
Proof.
  destruct (filterRules vals numFields delim !! key) as [v|] eqn:E; [|done].
  apply filterRules_lookup in E as (_ & _ & n & ->). done.
Qed.

(** What an accepting [modelIsValid] returns. *)
Lemma modelIsValid_accepts m m' :
  modelIsValid allowedFields m = (true, m') ->
  exists fs vals,
    m_fields (normalizeDefault m) = Some fs /\ fs ≠ []
    /\ Forall (fun field => field ∈ allowedFields) fs
    /\ mvalues (normalizeDefault m) = Some vals
    /\ size (filterRules vals (length fs) (str_or (m_delimiter (normalizeDefault m)) "|")) ≠ 0
    /\ m' = set_mvalues (normalizeDefault m)
              (Some (filterRules vals (length fs)
                       (str_or (m_delimiter (normalizeDefault m)) "|"))).
Proof.
  unfold modelIsValid. set (m1 := normalizeDefault m).
  destruct (validateSchemaFields allowedFields (m_fields m1)) eqn:Hs; cbn [negb]; [|done].
  apply validateSchemaFields_true in Hs as (fs & Hfs & Hne & Hall).
  unfold validateRules. rewrite Hfs. cbn [default].
  destruct (mvalues m1) as [vals|] eqn:Hvals; [|done].
  intros [= Hsize <-]. exists fs, vals.
  apply negb_true_iff, Nat.eqb_neq in Hsize. done.
Qed.

Lemma wildcardRule_one delim : wildcardRule 1 delim = "*".
Proof. reflexivity. Qed.

(** An accepted model with a settled default is accepted again, and is
    not changed by the second validation. *)
Lemma modelIsValid_again m m' :
  modelIsValid allowedFields m = (true, m') ->
  defaultSettled m' ->
  modelIsValid allowedFields m' = (true, m').
Proof.
  intros Hacc Hsettled.
  apply modelIsValid_accepts in Hacc
    as (fs & vals & Hfs & Hne & Hall & Hvals & Hsize & ->).
  remember (normalizeDefault m) as m1 eqn:Hm1. clear Hm1.
  set (delim := str_or (m_delimiter m1) "|") in *.
  set (kept := filterRules vals (length fs) delim) in *.
  assert (Hlen0 : Nat.eqb (length fs) 0 = false)
    by (apply Nat.eqb_neq; by destruct fs).
  assert (Hnorm : exists m2,
             normalizeDefault (set_mvalues m1 (Some kept)) = m2
             /\ m_fields m2 = Some fs /\ m_delimiter m2 = m_delimiter m1
             /\ mdefault m2 = mdefault m1 /\ modelWeight m2 = modelWeight m1
             /\ mmeta m2 = mmeta m1
             /\ exists vals2, mvalues m2 = Some vals2
                              /\ filterRules vals2 (length fs) delim = kept).
  { unfold normalizeDefault. unfold defaultSettled, defaultRuleOf in Hsettled.
    cbn [mdefault m_fields m_delimiter mvalues mmeta modelWeight set_mvalues] in *.
    rewrite Hfs in *. cbn [default] in *. unfold id in *. fold delim in Hsettled |- *.
    destruct (mdefault m1) as [d|] eqn:Hd.
    - rewrite Hlen0.
      destruct (isNullish (kept !! wildcardRule (length fs) delim)) eqn:Hnull.
      + apply isNullish_filterRules in Hnull.
        destruct Hsettled as [[v Hv]|[Hmeta Hbad]]; [unfold kept in Hv; congruence|].
        eexists. split; [reflexivity|]. cbn. repeat split; try done.
        eexists. split; [reflexivity|].
        rewrite filterRules_insert_invalid by done. apply filterRules_idempotent.
      + eexists. split; [reflexivity|]. cbn. repeat split; try done.
        eexists. split; [reflexivity|]. apply filterRules_idempotent.
    - eexists. split; [reflexivity|]. cbn. repeat split; try done.
      eexists. split; [reflexivity|]. apply filterRules_idempotent. }
  destruct Hnorm as (m2 & Hm2 & Hfs2 & Hdelim2 & Hd2 & Hw2 & Hmeta2 & vals2 & Hvals2 & Hkept2).
  unfold modelIsValid. rewrite Hm2, Hfs2.
  replace (validateSchemaFields allowedFields (Some fs)) with true
    by (symmetry; apply validateSchemaFields_true; eauto).
  cbn [negb default]. unfold validateRules. rewrite Hvals2, Hdelim2. fold delim.
  unfold id. rewrite Hkept2. f_equal.
  - by apply negb_true_iff, Nat.eqb_neq.
  - destruct m2. cbn in *. unfold set_mvalues. cbn. congruence.
Qed.

Lemma modelIsValid_weight m ok m' :
  modelIsValid allowedFields m = (ok, m') -> modelWeight m' = modelWeight m.
Proof.
  unfold modelIsValid.
  assert (Hn : modelWeight (normalizeDefault m) = modelWeight m).
  { unfold normalizeDefault. destruct (mdefault m); [|done]. by destruct (isNullish _). }
  destruct (negb _); [by intros [= _ <-]|].
  unfold validateRules. destruct (mvalues (normalizeDefault m)); by intros [= _ <-].
Qed.

Lemma validateGroups_again groups sum groups' sum' :
  validateGroups allowedFields groups sum = (true, groups', sum') ->
  Forall defaultSettled groups' ->
  validateGroups allowedFields groups' sum = (true, groups', sum')
  /\ length groups' = length groups.
Proof.
  revert sum groups' sum'. induction groups as [|g rest IH]; intros sum groups' sum'.
  - cbn. by intros [= <- <-].
  - cbn [validateGroups]. destruct (modelWeight g) as [w|] eqn:Hw; [|done].
    destruct (modelIsValid allowedFields g) as [ok g1] eqn:Hg.
    destruct ok; [|done].
    destruct (validateGroups allowedFields rest (sum + w)%float) as [[ok' rest'] s'] eqn:Hrest.
    intros [= -> <- <-] Hall. apply Forall_cons_1 in Hall as [Hg1 Hall].
    destruct (IH _ _ _ Hrest Hall) as [IH1 IH2].
    cbn [validateGroups length].
    rewrite (modelIsValid_weight _ _ _ Hg), Hw.
    rewrite (modelIsValid_again _ _ Hg Hg1), IH1. by rewrite IH2.
Qed.

(** C9, as amended. An object that the validator accepted, and in
    which every model with a numeric [default] has that default
    settled, is accepted when validated again and comes out of the
    second validation as it went in: same rules, same values, same
    fields, same [meta.defaultRule], and for schema version 2 the same
    [modelWeightSum]. *)
Theorem revalidation (input accepted : FloorsInput) :
  isFloorsDataValid allowedFields input = (true, accepted) ->
  defaultsSettled accepted ->
  isFloorsDataValid allowedFields accepted = (true, accepted).
Proof.
  unfold isFloorsDataValid, defaultsSettled.
  destruct (default 1 (floorsSchemaVersion input)) as [|[|[|version]]] eqn:Hv; [done| | |done].
  - destruct (modelIsValid allowedFields (fi_model input)) as [ok m1] eqn:Hm.
    intros [= -> <-]. cbn [floorsSchemaVersion fi_model default modelGroups modelWeightSum].
    intros Hsettled. by rewrite (modelIsValid_again _ _ Hm Hsettled).
  - destruct (modelGroups input) as [[|g groups]|] eqn:Hgroups; [done| |done].
    destruct (validateGroups allowedFields (g :: groups) 0%float)
      as [[ok groups'] sum] eqn:Hvg.
    intros [= -> <-]. cbn [floorsSchemaVersion fi_model default modelGroups modelWeightSum].
    intros Hsettled.
    destruct (validateGroups_again _ _ _ _ Hvg Hsettled) as [Hagain Hlen].
    destruct groups' as [|g' groups']; [done|]. by rewrite Hagain.
Qed.

End RevalidationFacts.

Lemma revalidation_witness :
  let accepted := (isFloorsDataValid allowedFields0 mixedInput).2 in
  isFloorsDataValid allowedFields0 accepted = (true, accepted).
Proof.
  apply (revalidation allowedFields0 mixedInput).
  - vm_compute. reflexivity.
  - exact I.
Defined.

(** C9 as stated fails on that input. The first validation accepts it
    and drops the entry ["*"], leaving the rule ["banner"] and no
    [meta.defaultRule]. Validating the accepted object again adds the
    rule ["*"] with the default floor and sets [meta.defaultRule]. *)
Lemma revalidation_counterexample :
  let once := isFloorsDataValid allowedFields0 shadowedDefaultInput in
  let twice := isFloorsDataValid allowedFields0 once.2 in
  once.1 = true
  /\ mvalues (fi_model once.2) = Some {[ "banner" := JsNum 2%float ]}
  /\ mmeta (fi_model once.2) = None
  /\ twice.1 = true
  /\ mvalues (fi_model twice.2)
     = Some {[ "*" := JsNum 1%float; "banner" := JsNum 2%float ]}
  /\ mmeta (fi_model twice.2) = Some "*".
Proof. repeat split; vm_compute; reflexivity. Qed.

(** Two model groups: the weights add up to 4, the default of the first
    group becomes the rule ["*|*"], the null entry of the second group
    is dropped, and a second validation changes nothing. *)
Lemma revalidation_version_2_example :
  let once := isFloorsDataValid allowedFields0 twoModelsInput in
  once.1 = true
  /\ modelWeightSum once.2 = Some 4%float
  /\ (mvalues <$> default [] (modelGroups once.2))
     = [ Some {[ "*|*" := JsNum 0.25%float; "banner|300x250" := JsNum 1.5%float ]};
         Some {[ "banner" := JsNum 2%float ]} ]
  /\ (mmeta <$> default [] (modelGroups once.2)) = [Some "*|*"; None]
  /\ isFloorsDataValid allowedFields0 once.2 = (true, once.2).
Proof. repeat split; vm_compute; reflexivity. Qed.

(** ** The skip decision *)

(** The sign of a zero rate does not matter to the comparison. *)
Lemma ltb_parseFloat_number (x v : number) :
  PrimFloat.ltb x (parseFloat_number v) = PrimFloat.ltb x v.
Proof.
  unfold parseFloat_number. destruct (is_zero v) eqn:E; [|done].
  unfold is_zero in E. rewrite FloatAxioms.eqb_spec in E. rewrite !FloatAxioms.ltb_spec.
  change (Prim2SF 0%float) with (S754_zero false) in *.
  destruct (Prim2SF v) as [s|s| |s m e] eqn:Ev;
  try discriminate E; try (destruct s; discriminate E).
by destruct (Prim2SF x) as [[]|[]| |[]].
Qed.

Section ResolverFacts.
Variable parseFloat : string -> number.

(** C6, as amended. For an auction whose catalog has rules, [skipped]
    is true exactly when the draw [Math.random() * 100] is strictly
    below the skip rate in force, which is, in this order of priority:
    the query parameter [pbjs_skipRate] when it is not empty, else the
    skip rate of the catalog, else the skip rate of the configuration;
    with none of them the auction is not skipped. *)
Theorem skip_decision (catalog : FloorData) (configSkipRate : option number)
    (pbjs_skipRate : string) (random : number) :
  size (values catalog) ≠ 0 ->
  let draw := (random * 100)%float in
  let skippedFlag := resolveSkipped parseFloat catalog configSkipRate pbjs_skipRate random in
  (pbjs_skipRate ≠ "" ->
   skippedFlag = PrimFloat.ltb draw (parseFloat pbjs_skipRate))
  /\ (pbjs_skipRate = "" -> forall rate, fd_skipRate catalog = Some rate ->
      skippedFlag = PrimFloat.ltb draw rate)
  /\ (pbjs_skipRate = "" -> fd_skipRate catalog = None ->
      forall rate, configSkipRate = Some rate ->
      skippedFlag = PrimFloat.ltb draw rate)
  /\ (pbjs_skipRate = "" -> fd_skipRate catalog = None -> configSkipRate = None ->
      skippedFlag = false).
Proof.
  intros Hsize draw skipped0. unfold skipped0, resolveSkipped.
  apply Nat.eqb_neq in Hsize. rewrite Hsize. unfold isSkipped, auctionSkipRate.
  fold draw. repeat split.
  - intros Hne. by destruct pbjs_skipRate.
  - intros -> rate ->. cbn [parseFloat_value]. apply ltb_parseFloat_number.
  - intros -> -> rate ->. cbn [parseFloat_value]. apply ltb_parseFloat_number.
  - intros -> -> ->. cbn [parseFloat_value].
    rewrite FloatAxioms.ltb_spec. change (Prim2SF NaN) with S754_nan.
    by destruct (Prim2SF draw) as [[]|[]| |[]].
Qed.

End ResolverFacts.

Lemma skip_decision_witness :
  resolveSkipped parseFloatOfDigits alwaysSkipCatalog (Some 0%float) "" 0.5%float
  = PrimFloat.ltb (0.5 * 100)%float 100%float.
Proof.
  destruct (skip_decision parseFloatOfDigits alwaysSkipCatalog (Some 0%float) ""
              0.5%float) as (_ & H & _).
  - vm_compute. discriminate.
  - by apply H.
Defined.

(** C6 as stated fails on the order of priority: with a catalog whose
    skip rate is 100 and the query parameter [pbjs_skipRate=0], the
    auction is not skipped, although the draw 50 is below the skip rate
    of the catalog. *)
Lemma skip_priority_counterexample :
  fd_skipRate alwaysSkipCatalog = Some 100%float
  /\ PrimFloat.ltb (0.5 * 100)%float 100%float = true
  /\ resolveSkipped parseFloatOfDigits alwaysSkipCatalog (Some 0%float) "0" 0.5%float
     = false.
Proof. repeat split; vm_compute; reflexivity. Qed.

(** ** The fetch and delay coordinator *)

Lemma continueAuction_exited h c :
  address h ∈ hasExited c -> continueAuction h c = c.
Proof. intros H. unfold continueAuction. by rewrite bool_decide_eq_true_2. Qed.







Lemma generateAndHandleFetch_alt c : generateAndHandleFetch c = withFetching true c.
Proof. reflexivity. Qed.












Lemma run_app c events1 events2 :
  run c (events1 ++ events2) = run (run c events1) events2.
Proof. apply fold_left_app. Qed.











(** The scenario of the specification: with a positive delay and a
    fetch pending, the callback of an auction is called once, with the
    status of the fetch when the fetch settles first and with the
    status [timeout] when the timer fires first, and not again when the
    other trigger follows. *)
Lemma deferred_auction_scenario :
  let c := requestBidsHook (run (initialCoordinator true) [EvFetchStart]) in
  let h := {| address := 0; timer := Some 1 |} in
  resumed c = []
  /\ resumed (run c [EvFetchSuccess]) = [(h, Some StatusSuccess)]
  /\ resumed (run c [EvFetchSuccess; EvTimer 1]) = [(h, Some StatusSuccess)]
  /\ resumed (run c [EvTimer 1]) = [(h, Some StatusTimeout)]
  /\ resumed (run c [EvTimer 1; EvFetchSuccess]) = [(h, Some StatusTimeout)].
Proof. repeat split; vm_compute; reflexivity. Qed.

(** ** More on the matching engine *)

Lemma lower_ascii_star c : lower_ascii c = "*"%char -> c = "*"%char.
Proof.
  unfold lower_ascii.
  destruct c as [[] [] [] [] [] [] [] []]; vm_compute; congruence.
Qed.

Lemma toLowerCase_star s : toLowerCase s = "*" <-> s = "*".
Proof.
  split; [|by intros ->].
  destruct s as [|c [|c' s]]; cbn [toLowerCase]; try discriminate.
  intros [= H]. by rewrite (lower_ascii_star c H).
Qed.

Lemma eqb_star_toLowerCase s :
  String.eqb (toLowerCase s) "*" = String.eqb s "*".
Proof.
  destruct (String.eqb s "*") eqn:E.
  - apply String.eqb_eq in E as ->. reflexivity.
  - apply String.eqb_neq. apply String.eqb_neq in E.
    by rewrite toLowerCase_star.
Qed.

Lemma enumerated_by_exactValues fmf floorFields bid rsp :
  enumeratePossibleFieldValues fmf floorFields bid rsp
  = map (fun exact => if String.eqb exact "*" then ["*"] else [exact; "*"])
        (exactValues fmf floorFields bid rsp).
Proof.
  unfold enumeratePossibleFieldValues, exactValues. rewrite map_map.
  apply map_ext. intros field. cbn beta zeta.
  by rewrite eqb_star_toLowerCase.
Qed.

Lemma exactValues_heads fmf floorFields bid rsp :
  map (fun field => hd "" field) (enumeratePossibleFieldValues fmf floorFields bid rsp)
  = exactValues fmf floorFields bid rsp.
Proof.
  rewrite enumerated_by_exactValues, map_map.
  rewrite <- (map_id (exactValues _ _ _ _)) at 2. apply map_ext.
  intros exact. destruct (String.eqb exact "*") eqn:E; [|done].
  by apply String.eqb_eq in E as ->.
Qed.

(** The sort key of [generatePossibleEnumerations]. *)
Lemma star_compare_key (left right : string) :
  star_compare left right
  = (Z.of_nat (S (count_char "*" left)) - Z.of_nat (S (count_char "*" right)))%Z.
Proof. unfold star_compare. by rewrite !(length_split_single "*"). Qed.

Lemma find_sorted_least {A} (key : A -> nat) (P : A -> bool) (l : list A) (x y : A) :
  StronglySorted (key_le key) l ->
  find P l = Some x -> y ∈ l -> P y = true -> key x <= key y.
Proof.
  induction 1 as [|a l Hs IH Ha]; cbn [find]; [done|].
  destruct (P a) eqn:Pa.
  - intros [= <-] Hy _. apply elem_of_cons in Hy as [->|Hy]; [done|].
    rewrite Forall_forall in Ha. by apply Ha.
  - intros Hf Hy Py. apply elem_of_cons in Hy as [->|Hy]; [congruence|].
    by apply IH.
Qed.

Lemma find_is_Some {A} (P : A -> bool) (l : list A) (y : A) :
  y ∈ l -> P y = true -> exists x, find P l = Some x.
Proof.
  intros Hy Py. destruct (find P l) eqn:E; [by eexists|].
  apply list_elem_of_In in Hy. by rewrite (find_none _ _ E _ Hy) in Py.
Qed.

(** X1. On a lookup that misses the memo, whenever some candidate key
    of the context is a rule of the catalog, [getFirstMatchingFloor]
    answers with a rule that is a candidate of the context, reports its
    floor and its key (unless it is the default rule), and that rule
    holds no more stars than any other candidate that is a rule: the
    most specific rule wins. *)
Theorem most_specific_rule_wins
    (fmf : Field -> option BidRequest -> BidResponse -> option string)
    (fd : FloorData) (bid : option BidRequest) (rsp : BidResponse)
    (candidates : list string) (other : string) :
  let fieldValues :=
    enumeratePossibleFieldValues fmf (default [] (schema_fields fd)) bid rsp in
  let call := getFirstMatchingFloor fmf fd bid rsp in
  default [] (schema_fields fd) ≠ [] ->
  matchingInputs fd !! matchingInputOf fieldValues = None ->
  generatePossibleEnumerations fieldValues (str_or (schema_delimiter fd) "|")
  = Some candidates ->
  other ∈ candidates ->
  is_Some (values fd !! other) ->
  exists key ruleFloor,
    key ∈ candidates
    /\ values fd !! key = Some ruleFloor
    /\ floorRuleValue (result call) = Some ruleFloor
    /\ matchingRule (result call)
       = (if decide (Some key = meta_defaultRule fd) then None else Some key)
    /\ count_char "*" key <= count_char "*" other.
Proof.
  intros fieldValues call Hne Hmiss Hgen Hother Hrule.
  destruct (getFirstMatchingFloor_computed fmf fd bid rsp Hne Hmiss)
    as (candidates' & Hgen' & Hres).
  fold fieldValues in Hgen'. rewrite Hgen in Hgen'. injection Hgen' as <-.
  fold call in Hres. rewrite Hres.
  destruct (find_is_Some
              (fun hashValue => bool_decide (is_Some (values fd !! hashValue)))
              candidates other Hother) as [key Hkey].
  { by apply bool_decide_eq_true. }
  destruct (computeMatch_matched fd bid candidates key Hkey)
    as (ruleFloor & Hv & Hrv & _ & _ & Hmr).
  exists key, ruleFloor. split; [by apply (firstMatch_Some fd candidates key)|].
  split; [done|]. split; [done|]. split; [done|].
  assert (Hsorted : StronglySorted (key_le (fun s => S (count_char "*" s))) candidates).
  { rewrite (generatePossibleEnumerations_total fieldValues) in Hgen.
    - injection Hgen as <-. apply Array_sort_sorted. apply star_compare_key.
    - by apply enumerated_nonempty. }
  pose proof (find_sorted_least _ _ _ key other Hsorted Hkey Hother) as Hle.
  cbn beta in Hle. rewrite bool_decide_eq_true in Hle. specialize (Hle Hrule). lia.
Qed.

Lemma most_specific_rule_wins_witness :
  let fmf := builtinMatchers noOtherMatchers in
  let call := getFirstMatchingFloor fmf sampleCatalog None sampleResponse in
  exists key ruleFloor,
    key ∈ ["banner|300x250"; "banner|*"; "*|300x250"; "*|*"]
    /\ values sampleCatalog !! key = Some ruleFloor
    /\ floorRuleValue (result call) = Some ruleFloor
    /\ matchingRule (result call)
       = (if decide (Some key = meta_defaultRule sampleCatalog) then None else Some key)
    /\ count_char "*" key <= count_char "*" "*|*".
Proof.
  apply (most_specific_rule_wins (builtinMatchers noOtherMatchers) sampleCatalog
           None sampleResponse
           ["banner|300x250"; "banner|*"; "*|300x250"; "*|*"] "*|*").
  - discriminate.
  - reflexivity.
  - reflexivity.
  - do 3 apply list_elem_of_further. apply list_elem_of_here.
  - exists 0.5%float. reflexivity.
Defined.

(** The tuple of wildcards is among the combinations of the options of
    the fields. *)
Lemma wildcards_in_tuples fmf floorFields bid rsp :
  repeat "*" (length floorFields)
  ∈ tuples (enumeratePossibleFieldValues fmf floorFields bid rsp).
Proof.
  induction floorFields as [|field rest IH]; cbn [length repeat].
  - apply list_elem_of_here.
  - unfold enumeratePossibleFieldValues in *. cbn [map tuples].
    rewrite list_elem_of_In, in_flat_map. exists "*". split.
    + cbn zeta. destruct (String.eqb _ "*"); cbn; auto.
    + apply in_map. by apply list_elem_of_In.
Qed.

(** X2. A catalog that holds the all-wildcard rule of its schema
    matches every context: on a lookup that misses the memo,
    [getFirstMatchingFloor] reports the floor of a rule of the catalog,
    and the floor it returns is the larger of that floor and the floor
    minimum in force. *)
Theorem catch_all_rule_always_matches
    (fmf : Field -> option BidRequest -> BidResponse -> option string)
    (fd : FloorData) (bid : option BidRequest) (rsp : BidResponse)
    (catchAllFloor : number) :
  let floorFields := default [] (schema_fields fd) in
  let fieldValues := enumeratePossibleFieldValues fmf floorFields bid rsp in
  let call := getFirstMatchingFloor fmf fd bid rsp in
  floorFields ≠ [] ->
  matchingInputs fd !! matchingInputOf fieldValues = None ->
  values fd !! wildcardRule (length floorFields) (str_or (schema_delimiter fd) "|")
  = Some catchAllFloor ->
  exists key ruleFloor,
    values fd !! key = Some ruleFloor
    /\ floorRuleValue (result call) = Some ruleFloor
    /\ matchingFloor (result call) = Some (Math_max (effectiveFloorMin fd bid) ruleFloor).
Proof.
  intros floorFields fieldValues call Hne Hmiss Hall.
  destruct (getFirstMatchingFloor_computed fmf fd bid rsp Hne Hmiss)
    as (candidates & Hgen & Hres).
  fold floorFields fieldValues in Hgen. fold call in Hres. rewrite Hres.
  rewrite (generatePossibleEnumerations_total fieldValues) in Hgen
    by by apply enumerated_nonempty.
  injection Hgen as <-.
  set (candidates := Array_sort star_compare _).
  assert (Hin : wildcardRule (length floorFields) (str_or (schema_delimiter fd) "|")
                ∈ candidates).
  { unfold candidates.
    rewrite Array_sort_Permutation.
    unfold wildcardRule. apply list_elem_of_fmap_2. apply wildcards_in_tuples. }
  destruct (find_is_Some
              (fun hashValue => bool_decide (is_Some (values fd !! hashValue)))
              candidates _ Hin) as [key Hkey].
  { apply bool_decide_eq_true. by eexists. }
  destruct (computeMatch_matched fd bid candidates key Hkey)
    as (ruleFloor & Hv & Hrv & _ & Hmf & _).
  by exists key, ruleFloor.
Qed.

Lemma catch_all_rule_always_matches_witness :
  let call :=
    getFirstMatchingFloor (builtinMatchers noOtherMatchers) sampleCatalog None
      {| rsp_mediaType := Some "video"; rsp_size := Some "640x480" |} in
  exists key ruleFloor,
    values sampleCatalog !! key = Some ruleFloor
    /\ floorRuleValue (result call) = Some ruleFloor
    /\ matchingFloor (result call)
       = Some (Math_max (effectiveFloorMin sampleCatalog None) ruleFloor).
Proof.
  apply (catch_all_rule_always_matches (builtinMatchers noOtherMatchers) sampleCatalog
           None {| rsp_mediaType := Some "video"; rsp_size := Some "640x480" |}
           0.5%float).
  - discriminate.
  - reflexivity.
  - reflexivity.
Defined.

Lemma Array_sort_head_least {A} (key : A -> nat) (compareFn : A -> A -> Z)
    (x : A) (l : list A) :
  (forall a b, compareFn a b = (Z.of_nat (key a) - Z.of_nat (key b))%Z) ->
  Forall (fun y => key x <= key y) l ->
  Array_sort compareFn (x :: l) = x :: Array_sort compareFn l.
Proof.
  intros Hkey Hall. cbn [Array_sort].
  assert (Hsorted : Forall (fun y => key x <= key y) (Array_sort compareFn l))
    by by rewrite Array_sort_Permutation.
  destruct (Array_sort compareFn l) as [|y r]; [done|].
  cbn [sort_insert]. apply Forall_cons_1 in Hsorted as [Hy _].
  rewrite (compareFn_le key) by done.
  by rewrite (proj2 (Nat.leb_le _ _) Hy).
Qed.

Lemma tuples_first (options : list (list string)) :
  Forall (fun o => o ≠ []) options ->
  exists others, tuples options = map (hd "") options :: others.
Proof.
  induction 1 as [|o rest Ho _ [others IH]]; cbn [tuples map].
  - by exists [].
  - destruct o as [|x o]; [done|]. cbn [flat_map hd]. rewrite IH. cbn [map app].
    by eexists.
Qed.

Lemma tuples_pointwise (options : list (list string)) (t : list string) :
  t ∈ tuples options -> Forall2 (fun x o => x ∈ o) t options.
Proof.
  revert t. induction options as [|o rest IH]; intros t; cbn [tuples].
  - intros ->%list_elem_of_singleton. constructor.
  - rewrite list_elem_of_In, in_flat_map. intros (x & Hx & Hin).
    apply in_map_iff in Hin as (t' & <- & Ht'). constructor.
    + by apply list_elem_of_In.
    + apply IH. by apply list_elem_of_In.
Qed.

(** A combination of options holds at least as many stars as the exact
    values, when no exact value holds more than one. *)
Lemma stars_of_combination (exact t : list string) :
  Forall (fun e => count_char "*" e <= 1) exact ->
  Forall2 (fun x o => x ∈ o) t
    (map (fun e => if String.eqb e "*" then ["*"] else [e; "*"]) exact) ->
  sum_list (map (count_char "*") exact) <= sum_list (map (count_char "*") t).
Proof.
  intros Hall. revert t. induction Hall as [|e exact He _ IH]; intros t Ht.
  - apply Forall2_nil_inv_r in Ht as ->. done.
  - cbn [map] in Ht. apply Forall2_cons_inv_r in Ht as (x & t' & Hx & Ht' & ->).
    specialize (IH t' Ht'). cbn [map sum_list].
    enough (count_char "*" e <= count_char "*" x) by (cbn [sum_list_with]; unfold id at 1 3; lia).
    destruct (String.eqb e "*") eqn:E.
    + apply String.eqb_eq in E as ->. by apply list_elem_of_singleton in Hx as ->.
    + apply elem_of_cons in Hx as [->|Hx]; [done|].
      by apply list_elem_of_singleton in Hx as ->.
Qed.

(** When no exact value holds more than one star, the key of the exact
    values comes out of the sort first. *)
Lemma candidates_exact_first fmf floorFields bid rsp delim :
  floorFields ≠ [] ->
  Forall (fun exact => count_char "*" exact <= 1)
         (exactValues fmf floorFields bid rsp) ->
  exists others,
    generatePossibleEnumerations
      (enumeratePossibleFieldValues fmf floorFields bid rsp) delim
    = Some (join delim (exactValues fmf floorFields bid rsp) :: others).
Proof.
  intros Hne Hstars.
  set (fieldValues := enumeratePossibleFieldValues fmf floorFields bid rsp).
  set (exactKey := join delim (exactValues fmf floorFields bid rsp)).
  rewrite (generatePossibleEnumerations_total fieldValues)
    by by apply enumerated_nonempty.
  assert (Hopts : Forall (fun o => o ≠ []) fieldValues).
  { unfold fieldValues, enumeratePossibleFieldValues.
    apply Forall_map, Forall_forall. intros field _. cbn zeta.
    by destruct (String.eqb _ "*"). }
  destruct (tuples_first fieldValues Hopts) as [others Htuples].
  unfold fieldValues in Htuples at 2. rewrite exactValues_heads in Htuples.
  assert (Hleast : Forall (fun key => S (count_char "*" exactKey) <= S (count_char "*" key))
                     (map (join delim) others)).
  { apply Forall_map, Forall_forall. intros t Ht. cbn beta.
    assert (Hin : t ∈ tuples fieldValues) by (rewrite Htuples; by right).
    pose proof (tuples_length _ _ Hin) as Hlen.
    apply tuples_pointwise in Hin.
    unfold fieldValues in Hin. rewrite enumerated_by_exactValues in Hin.
    pose proof (stars_of_combination _ _ Hstars Hin) as Hsum.
    unfold exactKey. rewrite !count_char_join.
    unfold fieldValues, enumeratePossibleFieldValues in Hlen.
    unfold exactValues in *. rewrite !length_map in *. rewrite Hlen. lia. }
  rewrite Htuples. cbn [map].
  rewrite (Array_sort_head_least (fun s => S (count_char "*" s)))
    by (apply star_compare_key || done).
  by eexists.
Qed.

(** X3. When no value of the context holds more than one star, the
    first candidate is the key of the exact values: on a lookup that
    misses the memo, [matchingData] is the exact values joined by the
    delimiter, and if that key is a rule of the catalog it is the rule
    that [getFirstMatchingFloor] selects. *)
Theorem exact_key_is_first_candidate
    (fmf : Field -> option BidRequest -> BidResponse -> option string)
    (fd : FloorData) (bid : option BidRequest) (rsp : BidResponse) :
  let floorFields := default [] (schema_fields fd) in
  let fieldValues := enumeratePossibleFieldValues fmf floorFields bid rsp in
  let call := getFirstMatchingFloor fmf fd bid rsp in
  let exactKey :=
    join (str_or (schema_delimiter fd) "|") (exactValues fmf floorFields bid rsp) in
  floorFields ≠ [] ->
  matchingInputs fd !! matchingInputOf fieldValues = None ->
  Forall (fun exact => count_char "*" exact <= 1)
         (exactValues fmf floorFields bid rsp) ->
  matchingData (result call) = Some exactKey
  /\ forall ruleFloor, values fd !! exactKey = Some ruleFloor ->
       floorRuleValue (result call) = Some ruleFloor
       /\ matchingRule (result call)
          = (if decide (Some exactKey = meta_defaultRule fd) then None
             else Some exactKey)
       /\ matchingFloor (result call)
          = Some (Math_max (effectiveFloorMin fd bid) ruleFloor).
Proof.
  intros floorFields fieldValues call exactKey Hne Hmiss Hstars.
  destruct (getFirstMatchingFloor_computed fmf fd bid rsp Hne Hmiss)
    as (candidates & Hgen & Hres).
  fold floorFields fieldValues in Hgen. fold call in Hres. rewrite Hres.
  destruct (candidates_exact_first fmf floorFields bid rsp
              (str_or (schema_delimiter fd) "|") Hne Hstars) as [others Hfirst].
  fold fieldValues exactKey in Hfirst. rewrite Hfirst in Hgen. injection Hgen as <-.
  split; [reflexivity|].
  intros ruleFloor Hrule.
  destruct (computeMatch_matched fd bid (exactKey :: others) exactKey)
    as (ruleFloor' & Hv & Hrv & _ & Hmf & Hmr).
  { unfold firstMatch. cbn [find].
    rewrite bool_decide_eq_true_2; [done|by eexists]. }
  rewrite Hrule in Hv. injection Hv as <-. done.
Qed.

Lemma exact_key_is_first_candidate_witness :
  let call :=
    getFirstMatchingFloor (builtinMatchers noOtherMatchers) sampleCatalog None
      sampleResponse in
  matchingData (result call) = Some "banner|300x250"
  /\ forall ruleFloor, values sampleCatalog !! "banner|300x250" = Some ruleFloor ->
       floorRuleValue (result call) = Some ruleFloor
       /\ matchingRule (result call)
          = (if decide (Some "banner|300x250" = meta_defaultRule sampleCatalog)
             then None else Some "banner|300x250")
       /\ matchingFloor (result call)
          = Some (Math_max (effectiveFloorMin sampleCatalog None) ruleFloor).
Proof.
  apply (exact_key_is_first_candidate (builtinMatchers noOtherMatchers) sampleCatalog
           None sampleResponse).
  - discriminate.
  - reflexivity.
  - repeat constructor.
Defined.

Lemma tuples_count (options : list (list string)) :
  length (tuples options) = foldr (fun o n => length o * n) 1 options.
Proof.
  induction options as [|o rest IH]; [done|]. cbn [tuples foldr]. rewrite <- IH.
  generalize (tuples rest) as ts. intros ts. clear IH.
  induction o as [|x o IHo]; [done|].
  cbn [flat_map length]. rewrite length_app, length_map, IHo. lia.
Qed.

(** X4. [generatePossibleEnumerations] applied to the options of a
    non-empty list of fields returns two to the power of the number of
    fields whose value is not the wildcard candidates. *)
Theorem candidate_count
    (fmf : Field -> option BidRequest -> BidResponse -> option string)
    (floorFields : list Field) (bid : option BidRequest) (rsp : BidResponse)
    (delimiter : string) :
  floorFields ≠ [] ->
  exists candidates,
    generatePossibleEnumerations
      (enumeratePossibleFieldValues fmf floorFields bid rsp) delimiter
    = Some candidates
    /\ length candidates
       = 2 ^ length (filter (fun exact => exact ≠ "*")
                            (exactValues fmf floorFields bid rsp)).
Proof.
  intros Hne. eexists. split.
  - apply generatePossibleEnumerations_total. by apply enumerated_nonempty.
  - rewrite Array_sort_Permutation, length_map, tuples_count.
    rewrite enumerated_by_exactValues.
    generalize (exactValues fmf floorFields bid rsp) as exact. intros exact.
    induction exact as [|e exact IH]; [done|].
    cbn [map foldr]. rewrite IH, filter_cons.
    destruct (String.eqb e "*") eqn:E.
    + apply String.eqb_eq in E as ->. rewrite decide_False by (by intros []).
      cbn [length]. lia.
    + apply String.eqb_neq in E. rewrite decide_True by done.
      cbn [length]. rewrite Nat.pow_succ_r'. lia.
Qed.

Lemma candidate_count_witness :
  exists candidates,
    generatePossibleEnumerations
      (enumeratePossibleFieldValues (builtinMatchers noOtherMatchers)
         [Named "mediaType"; Named "size"] None sampleResponse) "|"
    = Some candidates
    /\ length candidates = 2 ^ 2.
Proof.
  apply (candidate_count (builtinMatchers noOtherMatchers)
           [Named "mediaType"; Named "size"] None sampleResponse "|").
  discriminate.
Defined.


Lemma computeMatch_ext fd1 fd2 bid1 bid2 candidates :
  values fd1 = values fd2 ->
  fd_floorMin fd1 = fd_floorMin fd2 ->
  meta_defaultRule fd1 = meta_defaultRule fd2 ->
  bid1 ≫= req_floorMin = bid2 ≫= req_floorMin ->
  computeMatch fd1 bid1 candidates = computeMatch fd2 bid2 candidates.
Proof.
  intros Hv Hm Hd Hb. unfold computeMatch. rewrite Hv, Hm, Hd.
  assert (Hmin : match bid1 with
                 | Some b => match req_floorMin b with
                             | Some m => m
                             | None => num_or (fd_floorMin fd2) 0
                             end
                 | None => num_or (fd_floorMin fd2) 0
                 end
                 = match bid2 with
                   | Some b => match req_floorMin b with
                               | Some m => m
                               | None => num_or (fd_floorMin fd2) 0
                               end
                   | None => num_or (fd_floorMin fd2) 0
                   end).
  { destruct bid1 as [b1|], bid2 as [b2|]; cbn in Hb;
      repeat match goal with
             | |- context [req_floorMin ?b] => destruct (req_floorMin b)
             end; congruence. }
  cbv zeta. by rewrite Hmin.
Qed.



Lemma imap_lookup_zip {A B} (l : list A) (k : list B) :
  length k = length l ->
  imap (fun index x => (x, k !! index)) l = zip l (Some <$> k).
Proof.
  revert k. induction l as [|x l IH]; intros [|y k] Hlen; try done.
  rewrite imap_cons. cbn [fmap list_fmap zip zip_with lookup list_lookup].
  f_equal. cbn in Hlen. rewrite <- IH by lia. reflexivity.
Qed.

(** X6. For a delimiter of one character other than the star and
    values of the context that are the wildcard or hold neither the
    delimiter nor a star, when the lookup misses the memo the
    [matchedFields] that [addFloorDataToBid] records pair every field of
    the schema with the value of the context for that field. *)
Theorem matched_fields_are_exact_values
    (fmf : Field -> option BidRequest -> BidResponse -> option string)
    (getBidRequest : Bid -> option BidRequest)
    (getBiddersCpmAdjustment : number -> option Bid -> option BidRequest -> number)
    (floorData : AuctionFloorData) (bid : Bid) (cpm0 : number) (c : ascii) :
  let floorFields := default [] (schema_fields (data floorData)) in
  let exact :=
    exactValues fmf floorFields (getBidRequest bid)
      {| rsp_mediaType := bid_mediaType bid; rsp_size := bid_size bid |} in
  floorFields ≠ [] ->
  schema_delimiter (data floorData) = Some (String c "") ->
  c ≠ "*"%char ->
  matchingInputs (data floorData) !! join "-" exact = None ->
  Forall (plain_option c) exact ->
  matchedFields
    <$> bid_floorData (annotated fmf getBidRequest getBiddersCpmAdjustment
                         floorData bid cpm0)
  = Some (zip floorFields (Some <$> exact)).
Proof.
  intros floorFields exact Hne Hdelim Hc Hmiss Hplain.
  set (rsp := {| rsp_mediaType := bid_mediaType bid; rsp_size := bid_size bid |}) in *.
  assert (Hmiss' : matchingInputs (data floorData)
                   !! matchingInputOf (enumeratePossibleFieldValues fmf floorFields
                                         (getBidRequest bid) rsp) = None).
  { unfold matchingInputOf. by rewrite exactValues_heads. }
  destruct (getFirstMatchingFloor_computed fmf (data floorData) (getBidRequest bid) rsp
              Hne Hmiss') as (candidates & Hgen & Hres).
  assert (Hstars : Forall (fun e => count_char "*" e <= 1) exact).
  { eapply Forall_impl; [exact Hplain|]. intros e He.
    rewrite (plain_option_stars c e He). case_decide; lia. }
  destruct (candidates_exact_first fmf floorFields (getBidRequest bid) rsp
              (str_or (schema_delimiter (data floorData)) "|") Hne Hstars)
    as [others Hfirst].
  fold floorFields in Hgen. rewrite Hfirst in Hgen. injection Hgen as <-.
  destruct (getFirstMatchingFloor_frame fmf (data floorData) (getBidRequest bid) rsp)
    as (Hfields & Hdel & _).
  unfold annotated, hookLookup, addFloorDataToBid. fold rsp.
  cbn [bid_floorData set_bid_floorData fmap option_fmap option_map matchedFields
       data set_data].
  rewrite Hfields, Hdel, Hres, Hdelim. fold floorFields. f_equal.
  cbn [computeMatch matchingData head str_or default split_opt].
  unfold computeMatch. cbn [matchingData head default]. unfold id.
  fold exact. rewrite (split_plain_key c Hc exact).
  - apply imap_lookup_zip. unfold exact, exactValues. by rewrite length_map.
  - unfold exact, exactValues. by destruct floorFields.
  - done.
Qed.

Lemma matched_fields_are_exact_values_witness :
  matchedFields
    <$> bid_floorData
          (annotated (builtinMatchers noOtherMatchers) requestOfBid noAdjustment
             {| data := sampleCatalog; skipped := false;
                enforcement := defaultEnforcement |}
             (bannerBid 2%float None) 2%float)
  = Some [(Named "mediaType", Some "banner"); (Named "size", Some "300x250")].
Proof.
  apply (matched_fields_are_exact_values (builtinMatchers noOtherMatchers)
           requestOfBid noAdjustment
           {| data := sampleCatalog; skipped := false;
              enforcement := defaultEnforcement |}
           (bannerBid 2%float None) 2%float "|").
  - discriminate.
  - reflexivity.
  - discriminate.
  - reflexivity.
  - repeat constructor; right; split; reflexivity.
Defined.

(** The first element with [P] is also the first one among the elements
    with [Q], when it has [Q]. *)
Lemma find_filter {A} (P : A -> bool) (Q : A -> Prop) `{!forall a, Decision (Q a)}
    (l : list A) (x : A) :
  find P l = Some x -> Q x -> find P (filter Q l) = Some x.
Proof.
  induction l as [|a l IH]; cbn [find]; [done|].
  rewrite filter_cons. destruct (P a) eqn:Pa.
  - intros [= ->] Qx. rewrite decide_True by done. cbn [find]. by rewrite Pa.
  - intros Hfind Qx. case_decide; [cbn [find]; rewrite Pa|]; by apply IH.
Qed.

(** X24. The rule that matches is the first rule, in the order in which
    [generatePossibleEnumerations] builds the candidates before it sorts
    them, among the candidates with as many wildcards as that rule:
    between equally specific rules the order of generation decides. *)
Theorem equally_specific_rules_follow_generation_order
    (fmf : Field -> option BidRequest -> BidResponse -> option string)
    (fd : FloorData) (bid : option BidRequest) (rsp : BidResponse)
    (candidates : list string) (key : string) :
  let fieldValues :=
    enumeratePossibleFieldValues fmf (default [] (schema_fields fd)) bid rsp in
  let generated :=
    map (join (str_or (schema_delimiter fd) "|")) (tuples fieldValues) in
  default [] (schema_fields fd) ≠ [] ->
  generatePossibleEnumerations fieldValues (str_or (schema_delimiter fd) "|")
  = Some candidates ->
  firstMatch fd candidates = Some key ->
  firstMatch fd (filter (fun candidate => count_char "*" candidate = count_char "*" key)
                        generated)
  = Some key.
Proof.
  intros fieldValues generated Hne Hgen Hkey.
  rewrite (generatePossibleEnumerations_total fieldValues) in Hgen
    by by apply enumerated_nonempty.
  injection Hgen as <-. fold generated in Hkey.
  unfold firstMatch in *.
  apply (find_filter _ (fun candidate => count_char "*" candidate = count_char "*" key))
    in Hkey; [|done].
  rewrite <- Hkey. f_equal.
  rewrite (filter_agree (fun candidate => count_char "*" candidate = count_char "*" key)
             (fun candidate => S (count_char "*" candidate) = S (count_char "*" key))
             generated)
    by (apply Forall_forall; intros; lia).
  rewrite (filter_agree (fun candidate => count_char "*" candidate = count_char "*" key)
             (fun candidate => S (count_char "*" candidate) = S (count_char "*" key))
             (Array_sort star_compare generated))
    by (apply Forall_forall; intros; lia).
  symmetry.
  apply (Array_sort_stable (fun s => S (count_char "*" s))). apply star_compare_key.
Qed.

Lemma equally_specific_rules_follow_generation_order_witness :
  let fieldValues :=
    enumeratePossibleFieldValues (builtinMatchers noOtherMatchers)
      (default [] (schema_fields crossedCatalog)) None sampleResponse in
  let generated :=
    map (join (str_or (schema_delimiter crossedCatalog) "|")) (tuples fieldValues) in
  firstMatch crossedCatalog
    (filter (fun candidate => count_char "*" candidate = count_char "*" "banner|*")
            generated)
  = Some "banner|*".
Proof.
  apply (equally_specific_rules_follow_generation_order
           (builtinMatchers noOtherMatchers) crossedCatalog None sampleResponse
           ["banner|300x250"; "banner|*"; "*|300x250"; "*|*"] "banner|*").
  - discriminate.
  - reflexivity.
  - reflexivity.
Defined.

(** ** The memo against a fresh match *)

Lemma join_single_inj c (t1 t2 : list string) :
  t1 ≠ [] -> t2 ≠ [] ->
  Forall (fun x => count_char c x = 0) t1 ->
  Forall (fun x => count_char c x = 0) t2 ->
  join (String c "") t1 = join (String c "") t2 -> t1 = t2.
Proof.
  intros H1 H2 F1 F2 E.
  rewrite <- (split_join_single c t1), <- (split_join_single c t2) by done.
  by rewrite E.
Qed.

Section MemoSoundness.
Variable fmf : Field -> option BidRequest -> BidResponse -> option string.
Variable fd : FloorData.
Variable floorMinOverride : option number.

Let floorFields := default [] (schema_fields fd).

Lemma freshMatch_computed fdN bid rsp candidates :
  floorFields ≠ [] ->
  values fdN = values fd ->
  fd_floorMin fdN = fd_floorMin fd ->
  meta_defaultRule fdN = meta_defaultRule fd ->
  generatePossibleEnumerations
    (enumeratePossibleFieldValues fmf floorFields bid rsp)
    (str_or (schema_delimiter fd) "|") = Some candidates ->
  freshMatch fmf fd bid rsp = computeMatch fdN bid candidates.
Proof.
  intros Hne Hv Hm Hd Hgen. unfold freshMatch.
  destruct (getFirstMatchingFloor_computed fmf (set_matchingInputs fd ∅) bid rsp)
    as (candidates' & Hgen' & ->); [done|done|].
  cbn [set_matchingInputs schema_fields schema_delimiter] in Hgen'.
  fold floorFields in Hgen'. rewrite Hgen in Hgen'. injection Hgen' as <-.
  by apply computeMatch_ext.
Qed.

(** A lookup of a context without dash agrees with the fresh match and
    keeps the memo sound. *)
Lemma lookup_memoSound fdN call :
  memoSound fmf fd floorMinOverride fdN ->
  dashFree fmf floorFields floorMinOverride call ->
  result (getFirstMatchingFloor fmf fdN call.1 call.2) = freshMatch fmf fd call.1 call.2
  /\ memoSound fmf fd floorMinOverride
       (floorData' (getFirstMatchingFloor fmf fdN call.1 call.2)).
Proof.
  intros [(Hf & Hdl & Hv & Hm & Hd) Hmemo] Hcall. fold floorFields in Hmemo.
  destruct call as [bid rsp]. cbn [fst snd] in *.
  destruct (decide (floorFields = [])) as [Hnil|Hne].
  { unfold freshMatch, getFirstMatchingFloor.
    cbn [set_matchingInputs schema_fields]. rewrite Hf. fold floorFields.
    rewrite Hnil. cbn. split; [done|]. split; [done|]. exact Hmemo. }
  set (fieldValues := enumeratePossibleFieldValues fmf floorFields bid rsp).
  assert (Hkey : matchingInputOf fieldValues
                 = join "-" (exactValues fmf floorFields bid rsp)).
  { unfold matchingInputOf, fieldValues. by rewrite exactValues_heads. }
  destruct (matchingInputs fdN !! matchingInputOf fieldValues) as [previousMatch|] eqn:E.
  - rewrite (getFirstMatchingFloor_hit fmf fdN bid rsp previousMatch).
    + cbn [result floorData']. split.
      * apply (Hmemo _ _ E (bid, rsp) Hcall). by rewrite Hkey.
      * split; [done|exact Hmemo].
    + by rewrite Hf.
    + by rewrite Hf.
  - destruct (getFirstMatchingFloor_miss fmf fdN bid rsp) as (candidates & Hgen & ->).
    + by rewrite Hf.
    + by rewrite Hf.
    + rewrite Hf, Hdl in *. fold floorFields fieldValues in Hgen |- *.
      cbn [result floorData'].
      assert (Hfresh : computeMatch fdN bid candidates = freshMatch fmf fd bid rsp)
        by (symmetry; by apply freshMatch_computed).
      split; [done|]. split; [done|].
      cbn [matchingInputs set_matchingInputs].
      intros key previousMatch Hlook [bid' rsp'] Hcall' Hkey'. cbn [fst snd] in *.
      fold floorFields in Hcall', Hkey'.
      destruct (decide (key = matchingInputOf fieldValues)) as [->|Hother].
      * rewrite lookup_insert_eq in Hlook. injection Hlook as <-.
        rewrite Hkey in Hkey'.
        destruct Hcall as [Hmin Hdash], Hcall' as [Hmin' Hdash']. cbn [fst snd] in *.
        apply (join_single_inj "-") in Hkey';
          [|unfold exactValues; by destruct floorFields
           |unfold exactValues; by destruct floorFields|done|done].
        erewrite (freshMatch_computed fdN bid' rsp' candidates); try done.
        -- apply computeMatch_ext; congruence.
        -- rewrite enumerated_by_exactValues, Hkey', <- enumerated_by_exactValues.
           exact Hgen.
      * rewrite lookup_insert_ne in Hlook by done.
        by apply (Hmemo _ _ Hlook (bid', rsp')).
Qed.

Lemma afterLookups_memoSound calls fdN :
  memoSound fmf fd floorMinOverride fdN ->
  Forall (dashFree fmf floorFields floorMinOverride) calls ->
  memoSound fmf fd floorMinOverride (afterLookups fmf fdN calls).
Proof.
  revert fdN. induction calls as [|call calls IH]; intros fdN Hs Hall; [done|].
  apply Forall_cons_1 in Hall as [Hcall Hall]. cbn [afterLookups fold_left].
  apply IH; [|done]. by apply lookup_memoSound.
Qed.

End MemoSoundness.

(** X7. Starting from a catalog with an empty memo, after any series of
    lookups, a lookup answers what it would answer on the catalog with
    an empty memo, provided all the contexts carry the same floor
    minimum on their request (or none) and none of their values holds a
    dash, the separator of the memo keys. *)
Theorem memo_agrees_with_fresh_match
    (fmf : Field -> option BidRequest -> BidResponse -> option string)
    (fd : FloorData) (floorMinOverride : option number)
    (calls : list (option BidRequest * BidResponse))
    (bid : option BidRequest) (rsp : BidResponse) :
  matchingInputs fd = ∅ ->
  Forall (dashFree fmf (default [] (schema_fields fd)) floorMinOverride)
         ((bid, rsp) :: calls) ->
  result (getFirstMatchingFloor fmf (afterLookups fmf fd calls) bid rsp)
  = freshMatch fmf fd bid rsp.
Proof.
  intros Hempty Hall. apply Forall_cons_1 in Hall as [Hcall Hall].
  apply (lookup_memoSound fmf fd floorMinOverride _ (bid, rsp)); [|done].
  apply afterLookups_memoSound; [|done].
  split; [done|]. intros key previousMatch. by rewrite Hempty, lookup_empty.
Qed.

Lemma memo_agrees_with_fresh_match_witness :
  let fmf := builtinMatchers noOtherMatchers in
  result (getFirstMatchingFloor fmf
            (afterLookups fmf sampleCatalog [(None, sampleResponse)])
            (Some (sampleRequest "div_1" None)) sampleResponse)
  = freshMatch fmf sampleCatalog (Some (sampleRequest "div_1" None)) sampleResponse.
Proof.
  apply (memo_agrees_with_fresh_match (builtinMatchers noOtherMatchers) sampleCatalog
           None [(None, sampleResponse)]).
  - reflexivity.
  - repeat constructor.
Defined.

(** ** More on [getFloor] and the enforcement hook *)

(** ** [getFloor] *)


Section GetFloorCurrency.
Variable fmf : Field -> option BidRequest -> BidResponse -> option string.
Variable convertCurrency : number -> string -> string -> option number.
Variable getBiddersCpmAdjustment : number -> option Bid -> option BidRequest -> number.
Variable inverseBidAdjustment : string -> option (number -> BidRequest -> number).
Variable roundUp4 : number -> number.


End GetFloorCurrency.


(** ** [updateRequestParamsFromContext] *)

Lemma updated_mediaType (mediaTypes : MediaTypes) (requestParams : RequestParams) :
  rp_mediaType (updateRequestParamsFromContext mediaTypes requestParams)
  = if decide (rp_mediaType requestParams = Some "*")
    then match mediaTypes with
         | [(only, _)] => Some only
         | _ => Some "*"
         end
    else rp_mediaType requestParams.
Proof.
  unfold updateRequestParamsFromContext. cbn [rp_mediaType].
  case_decide as E.
  - rewrite E. by destruct mediaTypes as [|[only sizes] [|? ?]].
  - destruct (rp_mediaType requestParams) as [mt|]; [|done].
    destruct mt as [|[[] [] [] [] [] [] [] []] [|? ?]]; done.
Qed.

Lemma updated_size (mediaTypes : MediaTypes) (requestParams : RequestParams) :
  rp_size (updateRequestParamsFromContext mediaTypes requestParams)
  = match rp_size requestParams with
    | Some size => Some size
    | None =>
        match rp_mediaType (updateRequestParamsFromContext mediaTypes requestParams) with
        | Some mt =>
            if (String.eqb mt "banner" || String.eqb mt "video" || String.eqb mt "native")
            then match list_find (fun kv => kv.1 = mt) mediaTypes with
                 | Some (_, (_, [only])) => Some only
                 | _ => None
                 end
            else None
        | None => None
        end
    end.
Proof.
  unfold updateRequestParamsFromContext. cbn [rp_size rp_mediaType].
  destruct (rp_size requestParams); [done|].
  by destruct (match rp_mediaType requestParams with Some _ => _ | None => _ end).
Qed.

(** X11. [updateRequestParamsFromContext] is idempotent: the parameters
    it has completed from the media types of the bid are left as they
    are when it runs on them again. *)
Theorem updateRequestParamsFromContext_idempotent
    (mediaTypes : MediaTypes) (requestParams : RequestParams) :
  updateRequestParamsFromContext mediaTypes
    (updateRequestParamsFromContext mediaTypes requestParams)
  = updateRequestParamsFromContext mediaTypes requestParams.
Proof.
  set (once := updateRequestParamsFromContext mediaTypes requestParams).
  assert (Hmt : rp_mediaType (updateRequestParamsFromContext mediaTypes once)
                = rp_mediaType once).
  { rewrite updated_mediaType. case_decide as E; [|done]. rewrite E.
    unfold once in E. rewrite updated_mediaType in E. case_decide as E'.
    - destruct mediaTypes as [|[only sizes] [|? ?]]; done.
    - congruence. }
  assert (Hsz : rp_size (updateRequestParamsFromContext mediaTypes once)
                = rp_size once).
  { rewrite updated_size, Hmt. destruct (rp_size once) eqn:E; [done|].
    unfold once in E. rewrite updated_size in E. fold once in E.
    by destruct (rp_size requestParams). }
  assert (Hcur : rp_currency (updateRequestParamsFromContext mediaTypes once)
                 = rp_currency once) by reflexivity.
  destruct (updateRequestParamsFromContext mediaTypes once), once.
  cbn in Hmt, Hsz, Hcur. congruence.
Qed.

(** ** The enforcement hook *)


Section HookFacts.
Variable fmf : Field -> option BidRequest -> BidResponse -> option string.
Variable getBidRequest : Bid -> option BidRequest.
Variable convertCurrency : number -> string -> string -> option number.
Variable getBiddersCpmAdjustment : number -> option Bid -> option BidRequest -> number.


End HookFacts.


(** ** The order of prices *)





Section HookOrder.
Variable fmf : Field -> option BidRequest -> BidResponse -> option string.
Variable getBidRequest : Bid -> option BidRequest.
Variable convertCurrency : number -> string -> string -> option number.
Variable getBiddersCpmAdjustment : number -> option Bid -> option BidRequest -> number.


End HookOrder.


Lemma keepsRules_refl floorData : keepsRules floorData floorData.
Proof. by repeat split. Qed.

Lemma keepsRules_lookup fmf floorData bid rsp :
  keepsRules floorData
    (set_data floorData
       (floorData' (getFirstMatchingFloor fmf (data floorData) bid rsp))).
Proof.
  destruct (getFirstMatchingFloor_frame fmf (data floorData) bid rsp)
    as (H1 & H2 & H3 & H4 & H5 & H6 & H7).
  unfold keepsRules. cbn [skipped enforcement data set_data].
  repeat (split; [done|]). intros key previousMatch.
  apply getFirstMatchingFloor_keeps.
Qed.

Lemma tableKeepsRules_refl table : tableKeepsRules table table.
Proof.
  intros auctionId. destruct (table !! auctionId); [apply keepsRules_refl|done].
Qed.

Lemma tableKeepsRules_insert table auctionId floorData floorData1 :
  table !! auctionId = Some floorData ->
  keepsRules floorData floorData1 ->
  tableKeepsRules table (<[auctionId := floorData1]> table).
Proof.
  intros Hlook Hkeeps other. destruct (decide (other = auctionId)) as [->|Hne].
  - by rewrite Hlook, lookup_insert_eq.
  - rewrite lookup_insert_ne by done.
    destruct (table !! other); [apply keepsRules_refl|done].
Qed.

(** X10. [addBidResponseHook] and [getFloor] leave every entry of
    [_floorDataForAuction] with the rules, schema, currency, floor
    minimum and flags it had, keep every record of its memo, and do not
    touch the entries of other auctions. *)
Theorem lookups_only_add_to_the_memo
    (fmf : Field -> option BidRequest -> BidResponse -> option string)
    (getBidRequest : Bid -> option BidRequest)
    (convertCurrency : number -> string -> string -> option number)
    (getBiddersCpmAdjustment : number -> option Bid -> option BidRequest -> number)
    (inverseBidAdjustment : string -> option (number -> BidRequest -> number))
    (roundUp4 : number -> number)
    (table : gmap string AuctionFloorData) :
  (forall bid,
     let table1 :=
       (addBidResponseHook fmf getBidRequest convertCurrency getBiddersCpmAdjustment
          table bid).2 in
     tableKeepsRules table table1
     /\ forall auctionId, auctionId ≠ bid_auctionId bid ->
          table1 !! auctionId = table !! auctionId)
  /\ (forall bidRequest mediaTypes requestParams,
        let table1 :=
          (getFloor fmf convertCurrency getBiddersCpmAdjustment inverseBidAdjustment
             roundUp4 table bidRequest mediaTypes requestParams).2 in
        tableKeepsRules table table1
        /\ forall auctionId, auctionId ≠ req_auctionId bidRequest ->
             table1 !! auctionId = table !! auctionId).
Proof.
  split.
  - intros bid table1. unfold table1, addBidResponseHook.
    destruct (table !! bid_auctionId bid) as [floorData|] eqn:Htable;
      [|split; [apply tableKeepsRules_refl|done]].
    destruct (skipped floorData); [split; [apply tableKeepsRules_refl|done]|].
    cbv zeta.
    assert (Hins : tableKeepsRules table
                     (<[bid_auctionId bid :=
                          set_data floorData
                            (floorData'
                               (getFirstMatchingFloor fmf (data floorData)
                                  (getBidRequest bid)
                                  {| rsp_mediaType := bid_mediaType bid;
                                     rsp_size := bid_size bid |}))]> table)).
    { apply (tableKeepsRules_insert _ _ floorData); [done|apply keepsRules_lookup]. }
    repeat match goal with
           | |- context [if ?b then _ else _] => destruct b
           | |- context [match ?o with Some _ => _ | None => _ end] => destruct o
           end; cbn [snd];
      (split; [exact Hins|intros auctionId Hne; by rewrite lookup_insert_ne]).
  - intros bidRequest mediaTypes requestParams table1. unfold table1, getFloor.
    destruct (table !! req_auctionId bidRequest) as [floorData|] eqn:Htable;
      [|split; [apply tableKeepsRules_refl|done]].
    destruct (skipped floorData); [split; [apply tableKeepsRules_refl|done]|].
    cbv zeta.
    set (rsp := {| rsp_mediaType := _; rsp_size := _ |}).
    assert (Hins : tableKeepsRules table
                     (<[req_auctionId bidRequest :=
                          set_data floorData
                            (floorData'
                               (getFirstMatchingFloor fmf (data floorData)
                                  (Some bidRequest) rsp))]> table)).
    { apply (tableKeepsRules_insert _ _ floorData); [done|apply keepsRules_lookup]. }
    destruct (if truthy_opt _ && negb _ then _ else _) as [matchingFloor1 currency1].
    destruct (truthy_opt _); cbn [snd];
      (split; [exact Hins|intros auctionId Hne; by rewrite lookup_insert_ne]).
Qed.

Section AdvertisedFloor.
Variable fmf : Field -> option BidRequest -> BidResponse -> option string.
Variable getBidRequest : Bid -> option BidRequest.
Variable convertCurrency : number -> string -> string -> option number.
Variable getBiddersCpmAdjustment : number -> option Bid -> option BidRequest -> number.
Variable inverseBidAdjustment : string -> option (number -> BidRequest -> number).
Variable roundUp4 : number -> number.

Lemma getFloor_table table bidRequest mediaTypes requestParams floorData :
  table !! req_auctionId bidRequest = Some floorData ->
  skipped floorData = false ->
  let requestParams1 := updateRequestParamsFromContext mediaTypes requestParams in
  (getFloor fmf convertCurrency getBiddersCpmAdjustment inverseBidAdjustment roundUp4
     table bidRequest mediaTypes requestParams).2
  = <[req_auctionId bidRequest :=
        set_data floorData
          (floorData'
             (getFirstMatchingFloor fmf (data floorData) (Some bidRequest)
                {| rsp_mediaType := rp_mediaType requestParams1;
                   rsp_size := default None (rp_size requestParams1) |}))]> table.
Proof.
  intros Htable Hskipped requestParams1. unfold getFloor. rewrite Htable, Hskipped.
  cbv zeta. fold requestParams1.
  destruct (if truthy_opt _ && negb _ then _ else _) as [matchingFloor1 currency1].
  by destruct (truthy_opt _).
Qed.

(** X9. After [getFloor] has answered a bid request of an auction that
    is not skipped, the hook finds, for a bid of the same auction whose
    context has the same field values, the record that [getFloor] read,
    and finds it in the memo, without enumerating the candidates
    again. *)
Theorem hook_reads_the_floor_that_getFloor_read
    (table : gmap string AuctionFloorData) (bidRequest : BidRequest)
    (mediaTypes : MediaTypes) (requestParams : RequestParams)
    (floorData : AuctionFloorData) (bid : Bid) :
  let requestParams1 := updateRequestParamsFromContext mediaTypes requestParams in
  let asked :=
    {| rsp_mediaType := rp_mediaType requestParams1;
       rsp_size := default None (rp_size requestParams1) |} in
  let answered := {| rsp_mediaType := bid_mediaType bid; rsp_size := bid_size bid |} in
  let floorFields := default [] (schema_fields (data floorData)) in
  let table1 :=
    (getFloor fmf convertCurrency getBiddersCpmAdjustment inverseBidAdjustment roundUp4
       table bidRequest mediaTypes requestParams).2 in
  table !! req_auctionId bidRequest = Some floorData ->
  skipped floorData = false ->
  bid_auctionId bid = req_auctionId bidRequest ->
  exactValues fmf floorFields (getBidRequest bid) answered
  = exactValues fmf floorFields (Some bidRequest) asked ->
  exists floorData1,
    table1 !! bid_auctionId bid = Some floorData1
    /\ result (hookLookup fmf getBidRequest floorData1 bid)
       = result (getFirstMatchingFloor fmf (data floorData) (Some bidRequest) asked)
    /\ enumerations (hookLookup fmf getBidRequest floorData1 bid) = 0.
Proof.
  intros requestParams1 asked answered floorFields table1 Htable Hskipped Hid Hexact.
  unfold table1. rewrite (getFloor_table _ _ _ _ floorData) by done.
  fold requestParams1 asked.
  eexists. split; [by rewrite Hid, lookup_insert_eq|].
  unfold hookLookup. cbn [data set_data]. fold answered.
  set (first := getFirstMatchingFloor fmf (data floorData) (Some bidRequest) asked).
  destruct (getFirstMatchingFloor_frame fmf (data floorData) (Some bidRequest) asked)
    as (Hfields & _). fold first in Hfields.
  destruct (decide (floorFields = [])) as [Hnil|Hne].
  - assert (Hfirst : result first = noFieldsResult).
    { unfold first, getFirstMatchingFloor. fold floorFields. by rewrite Hnil. }
    unfold getFirstMatchingFloor. rewrite Hfields. fold floorFields.
    rewrite Hnil. cbn. by rewrite Hfirst.
  - rewrite (getFirstMatchingFloor_hit fmf (floorData' first) (getBidRequest bid)
               answered (result first)).
    + done.
    + by rewrite Hfields.
    + rewrite Hfields. fold floorFields. unfold matchingInputOf.
      rewrite exactValues_heads, Hexact, <- exactValues_heads.
      by apply getFirstMatchingFloor_stored.
Qed.

End AdvertisedFloor.

Lemma hook_reads_the_floor_that_getFloor_read_witness :
  let fmf := builtinMatchers noOtherMatchers in
  let requestParams :=
    {| rp_currency := Some "USD"; rp_mediaType := Some "banner";
       rp_size := Some (Some "300x250") |} in
  let table1 :=
    (getFloor fmf noConversion noAdjustment noInverse keepValue
       (auctionOf sampleCatalog defaultEnforcement) (sampleRequest "div-1" None) []
       requestParams).2 in
  exists floorData1,
    table1 !! "auction-1" = Some floorData1
    /\ result (hookLookup fmf requestOfBid floorData1 (bannerBid 2%float None))
       = result (getFirstMatchingFloor fmf sampleCatalog
                   (Some (sampleRequest "div-1" None)) sampleResponse)
    /\ enumerations (hookLookup fmf requestOfBid floorData1 (bannerBid 2%float None)) = 0.
Proof.
  apply (hook_reads_the_floor_that_getFloor_read (builtinMatchers noOtherMatchers)
           requestOfBid noConversion noAdjustment noInverse keepValue
           (auctionOf sampleCatalog defaultEnforcement) (sampleRequest "div-1" None) []
           {| rp_currency := Some "USD"; rp_mediaType := Some "banner";
              rp_size := Some (Some "300x250") |}
           {| data := sampleCatalog; skipped := false;
              enforcement := defaultEnforcement |}
           (bannerBid 2%float None)).
  - reflexivity.
  - reflexivity.
  - reflexivity.
  - reflexivity.
Defined.

(** ** More on the validator *)

Section ValidatorVersion2.
Variable allowedFields : list Field.

Lemma validateGroups_true groups sum :
  (validateGroups allowedFields groups sum).1.1 = true
  <-> Forall (fun g => is_Some (modelWeight g)
                       /\ (modelIsValid allowedFields g).1 = true) groups.
Proof.
  revert sum. induction groups as [|g rest IH]; intros sum; cbn [validateGroups].
  - split; [constructor|done].
  - rewrite Forall_cons. destruct (modelWeight g) as [w|] eqn:Hw.
    + destruct (modelIsValid allowedFields g) as [ok g1] eqn:Hg. destruct ok.
      * specialize (IH (sum + w)%float).
        destruct (validateGroups allowedFields rest (sum + w)%float) as [[ok' rest'] s'].
        cbn [fst snd] in *. rewrite IH. split; [|tauto]. intros H.
        split; [|done]. split; [by eexists|done].
      * cbn. split; [done|]. by intros [[_ ?] _].
    + cbn. split; [done|]. by intros [[[? ?] _] _].
Qed.

Lemma validateGroups_accepted groups sum :
  (validateGroups allowedFields groups sum).1.1 = true ->
  (validateGroups allowedFields groups sum).1.2
  = map (fun g => (modelIsValid allowedFields g).2) groups
  /\ (validateGroups allowedFields groups sum).2
     = fold_left (fun sum g => (sum + ToNumber (modelWeight g))%float) groups sum.
Proof.
  revert sum. induction groups as [|g rest IH]; intros sum; cbn [validateGroups].
  - done.
  - destruct (modelWeight g) as [w|] eqn:Hw; [|done].
    destruct (modelIsValid allowedFields g) as [ok g1] eqn:Hg.
    destruct ok; [|done]. specialize (IH (sum + w)%float).
    destruct (validateGroups allowedFields rest (sum + w)%float) as [[ok' rest'] s'].
    cbn [fst snd map fold_left] in *. intros Hok. destruct (IH Hok) as [-> ->].
    by rewrite Hg, Hw.
Qed.

(** X13. For schema version 2, [isFloorsDataValid] accepts exactly when
    [modelGroups] is a non-empty array in which every model has a
    numeric [modelWeight] and passes [modelIsValid]. An accepted object
    comes out with every model as [modelIsValid] leaves it, with
    [modelWeightSum] the sum of the weights in the order of the groups,
    and with its own top-level rules untouched. *)
Theorem validator_version_2 (input : FloorsInput) :
  floorsSchemaVersion input = Some 2 ->
  let verdict := isFloorsDataValid allowedFields input in
  (verdict.1 = true
   <-> exists groups,
         modelGroups input = Some groups /\ groups ≠ []
         /\ Forall (fun g => is_Some (modelWeight g)
                             /\ (modelIsValid allowedFields g).1 = true) groups)
  /\ (verdict.1 = true ->
      forall groups, modelGroups input = Some groups ->
        modelGroups verdict.2
        = Some (map (fun g => (modelIsValid allowedFields g).2) groups)
        /\ modelWeightSum verdict.2 = Some (weightSum groups)
        /\ fi_model verdict.2 = fi_model input).
Proof.
  intros Hversion verdict. unfold verdict, isFloorsDataValid.
  rewrite Hversion. cbn [default from_option id].
  destruct (modelGroups input) as [[|g groups]|] eqn:Hgroups.
  - cbn. split.
    + split; [done|]. intros (groups & [= <-] & Hne & _). done.
    + done.
  - pose proof (validateGroups_true (g :: groups) 0%float) as Htrue.
    pose proof (validateGroups_accepted (g :: groups) 0%float) as Hacc.
    destruct (validateGroups allowedFields (g :: groups) 0%float)
      as [[ok groups'] sum]. cbn [fst snd] in *. split.
    + rewrite Htrue. split.
      * intros H. by exists (g :: groups).
      * by intros (groups0 & [= <-] & _ & H).
    + intros Hok groups0 [= <-]. destruct (Hacc Hok) as [-> ->].
      cbn [modelGroups modelWeightSum fi_model]. done.
  - cbn. split.
    + split; [done|]. by intros (groups & [=] & _).
    + done.
Qed.

End ValidatorVersion2.

Lemma validator_version_2_witness :
  let verdict := isFloorsDataValid allowedFields0 twoModelsInput in
  (verdict.1 = true
   <-> exists groups,
         modelGroups twoModelsInput = Some groups /\ groups ≠ []
         /\ Forall (fun g => is_Some (modelWeight g)
                             /\ (modelIsValid allowedFields0 g).1 = true) groups)
  /\ (verdict.1 = true ->
      forall groups, modelGroups twoModelsInput = Some groups ->
        modelGroups verdict.2
        = Some (map (fun g => (modelIsValid allowedFields0 g).2) groups)
        /\ modelWeightSum verdict.2 = Some (weightSum groups)
        /\ fi_model verdict.2 = fi_model twoModelsInput).
Proof.
  apply (validator_version_2 allowedFields0 twoModelsInput). reflexivity.
Defined.



Section DefaultFloor.
Variable allowedFields : list Field.


End DefaultFloor.


(** X15. [normalizeDefault] is idempotent. *)
Theorem normalizeDefault_idempotent (m : Model) :
  normalizeDefault (normalizeDefault m) = normalizeDefault m.
Proof.
  destruct (mdefault m) as [d|] eqn:Hd.
  2: { assert (H : normalizeDefault m = m) by (unfold normalizeDefault; by rewrite Hd).
       by rewrite !H. }
  set (numFields := length (default [] (m_fields m))).
  set (rule := if Nat.eqb numFields 0 then "*"
               else wildcardRule numFields (str_or (m_delimiter m) "|")).
  set (fields1 := if Nat.eqb numFields 0 then Some [SYN_FIELD] else m_fields m).
  assert (Hrule1 : (if Nat.eqb (length (default [] fields1)) 0 then "*"
                    else wildcardRule (length (default [] fields1))
                           (str_or (m_delimiter m) "|")) = rule).
  { unfold fields1, rule. destruct (Nat.eqb numFields 0) eqn:E; [done|].
    fold numFields. by rewrite E. }
  assert (Hfields1 : (if Nat.eqb (length (default [] fields1)) 0 then Some [SYN_FIELD]
                      else fields1) = fields1).
  { unfold fields1. destruct (Nat.eqb numFields 0) eqn:E; [done|].
    fold numFields. by rewrite E. }
  assert (Hshape : exists vals meta,
             normalizeDefault m
             = {| mdefault := Some d; m_fields := fields1; m_delimiter := m_delimiter m;
                  mvalues := Some vals; mmeta := meta; modelWeight := modelWeight m |}
             /\ isNullish (vals !! rule) = false).
  { unfold normalizeDefault. rewrite Hd. fold numFields. cbv zeta. fold rule fields1.
    destruct (isNullish (default ∅ (mvalues m) !! rule)) eqn:E.
    - eexists _, _. split; [reflexivity|]. by rewrite lookup_insert_eq.
    - eexists _, _. split; [reflexivity|]. done. }
  destruct Hshape as (vals & meta & -> & Hnot).
  unfold normalizeDefault. cbn [mdefault m_fields m_delimiter mvalues mmeta modelWeight].
  cbv zeta. rewrite Hrule1, Hfields1. cbn [default from_option id].
  by rewrite Hnot.
Qed.

(** ** The rule table of an auction *)





Section RuleTable.
Context (newKey : string -> string).





End RuleTable.









(** ** Floor data stamped on the ad units *)

Lemma getNoFloorSignalBidersArray_priority floorData :
  getNoFloorSignalBidersArray floorData = unsignaledBidders floorData.
Proof.
  unfold getNoFloorSignalBidersArray, unsignaledBidders.
  destruct (rf_data_noFloorSignalBidders floorData) as [[|b l]|]; cbn; try done;
    by destruct (rf_enforcement_noFloorSignalBidders floorData) as [[|b' l']|].
Qed.

Lemma existsb_eqb_elem_of (name : string) (l : list string) :
  existsb (fun x => String.eqb x name) l = true <-> name ∈ l.
Proof.
  rewrite existsb_exists. split.
  - intros (x & Hin & ->%String.eqb_eq). by apply list_elem_of_In.
  - intros Hin. exists name. split; [by apply list_elem_of_In|apply String.eqb_refl].
Qed.

(** X19. [updateAdUnitsForAuction] keeps the ad units and their
    bidders, stamps every bid with the auction id, and leaves a bid with
    the function [getFloor] exactly when the auction is not skipped and
    the bidder is not among the bidders without floor signal; that flag
    is recorded in [noFloorSignaled]. The bidders without floor signal
    are those listed in the data when that list is not empty, else those
    listed in the enforcement options: the two lists are not merged. *)
Theorem unsignaled_bidders_get_no_floor_function
    (deepAccess_location : option string -> string)
    (fetchStatus0 : option FetchStatus)
    (adUnits : list AdUnit) (floorData : ResolvedFloors) (auctionId : string) :
  let updated :=
    updateAdUnitsForAuction deepAccess_location fetchStatus0 adUnits floorData
      auctionId in
  map (fun adUnit => (au_code adUnit, map aub_bidder (au_bids adUnit))) updated
  = map (fun adUnit => (au_code adUnit, map aub_bidder (au_bids adUnit))) adUnits
  /\ forall adUnit bid, adUnit ∈ updated -> bid ∈ au_bids adUnit ->
       (aub_getFloor bid = true
        <-> rf_skipped floorData = false
            /\ aub_bidder bid ∉ unsignaledBidders floorData)
       /\ aub_auctionId bid = Some auctionId
       /\ exists stamped,
            aub_floorData bid = Some stamped
            /\ (noFloorSignaled stamped = true
                <-> aub_bidder bid ∈ unsignaledBidders floorData)
            /\ abf_skipped stamped = rf_skipped floorData
            /\ abf_fetchStatus stamped = fetchStatus0.
Proof.
  intros updated. unfold updated, updateAdUnitsForAuction.
  rewrite getNoFloorSignalBidersArray_priority. split.
  - rewrite map_map. apply map_ext. intros adUnit. cbn [au_code au_bids].
    f_equal. rewrite map_map. by apply map_ext.
  - intros adUnit bid Hau Hbid.
    apply list_elem_of_fmap in Hau as (adUnit0 & -> & _). cbn [au_bids] in Hbid.
    apply list_elem_of_fmap in Hbid as (bid0 & -> & _).
    unfold updateBidForAuction.
    cbn [aub_getFloor aub_bidder aub_auctionId aub_floorData].
    pose proof (existsb_eqb_elem_of (aub_bidder bid0) (unsignaledBidders floorData))
      as Hlisted.
    destruct (existsb _ (unsignaledBidders floorData)) eqn:E.
    + assert (Hin : aub_bidder bid0 ∈ unsignaledBidders floorData) by by apply Hlisted.
      rewrite orb_true_r. split; [|split; [done|]].
      * split; [done|]. by intros [_ Hnot].
      * eexists. split; [done|]. cbn. tauto.
    + assert (Hnot : aub_bidder bid0 ∉ unsignaledBidders floorData).
      { intros Hin. apply Hlisted in Hin. discriminate. }
      rewrite orb_false_r. split; [|split; [done|]].
      * destruct (rf_skipped floorData); split; try done; by intros [? _].
      * eexists. split; [done|]. cbn. split; [|done]. split; [done|].
        intros Hin. by destruct Hnot.
Qed.

(** ** Fields defined by the publisher *)

Lemma addFieldOverride_keeps tables override :
  (exists added, ft_allowedFields (addFieldOverride tables override)
                 = ft_allowedFields tables ++ added)
  /\ (NoDup (ft_allowedFields tables) ->
      NoDup (ft_allowedFields (addFieldOverride tables override)))
  /\ (forall field, field ∈ ft_allowedFields tables ->
        ft_fieldMatchingFunctions (addFieldOverride tables override) field
        = ft_fieldMatchingFunctions tables field)
  /\ (forall matchingFunction, override.2 = Some matchingFunction ->
        Named override.1 ∈ ft_allowedFields (addFieldOverride tables override)
        /\ (Named override.1 ∉ ft_allowedFields tables ->
            ft_fieldMatchingFunctions (addFieldOverride tables override)
              (Named override.1) = matchingFunction))
  /\ (forall field, field ∈ ft_allowedFields (addFieldOverride tables override) ->
        field ∈ ft_allowedFields tables \/ field = Named override.1).
Proof.
  unfold addFieldOverride. destruct override as [name [matchingFunction|]]; cbn [fst snd].
  - case_bool_decide as Hin; cbn [ft_allowedFields ft_fieldMatchingFunctions].
    + split; [exists []; by rewrite app_nil_r|]. split; [done|]. split; [done|].
      split; [|by left]. intros ? _. by split.
    + split; [by eexists|]. split; [|split; [|split]].
      * intros Hnd. apply NoDup_app. split; [done|]. split; [|apply NoDup_singleton].
        intros field Hfield ->%list_elem_of_singleton. done.
      * intros field Hfield. rewrite decide_False; [done|]. by intros ->.
      * intros ? [= <-]. split.
        -- apply elem_of_app. right. apply list_elem_of_here.
        -- intros _. by rewrite decide_True.
      * intros field [?|Heq]%elem_of_app; [by left|].
        apply list_elem_of_singleton in Heq. by right.
  - split; [exists []; by rewrite app_nil_r|]. split; [done|]. split; [done|].
    split; [by intros ? [=]|by left].
Qed.

(** X20. [addFieldOverrides] only appends to [allowedFields], keeps it
    free of duplicates, and leaves the matching function of every field
    that was already allowed as it was: a built-in field cannot be
    redefined. Every override whose value is a function is allowed
    afterwards, and a new one gets that function as its matching
    function. *)
Theorem custom_fields_never_replace_known_fields
    (overrides : list (string * option MatchingFunction)) (tables : FieldTables) :
  let tables1 := addFieldOverrides overrides tables in
  (exists added, ft_allowedFields tables1 = ft_allowedFields tables ++ added)
  /\ (NoDup (ft_allowedFields tables) -> NoDup (ft_allowedFields tables1))
  /\ (forall field, field ∈ ft_allowedFields tables ->
        ft_fieldMatchingFunctions tables1 field = ft_fieldMatchingFunctions tables field)
  /\ (forall name matchingFunction,
        (name, Some matchingFunction) ∈ overrides ->
        Named name ∈ ft_allowedFields tables1
        /\ (NoDup (map fst overrides) ->
            Named name ∉ ft_allowedFields tables ->
            ft_fieldMatchingFunctions tables1 (Named name) = matchingFunction)).
Proof.
  unfold addFieldOverrides. revert tables.
  induction overrides as [|override overrides IH]; intros tables; cbn [fold_left].
  - split; [exists []; by rewrite app_nil_r|]. split; [done|]. split; [done|].
    by intros ? ? ?%elem_of_nil.
  - destruct (addFieldOverride_keeps tables override)
      as ([added Ha] & Hnd & Hfn & Hnew & Hold).
    destruct (IH (addFieldOverride tables override))
      as ([added' Ha'] & Hnd' & Hfn' & Hnew').
    split; [|split; [|split]].
    + exists (added ++ added'). by rewrite Ha', Ha, app_assoc.
    + intros H. by apply Hnd', Hnd.
    + intros field Hfield. rewrite Hfn'; [by apply Hfn|].
      rewrite Ha. apply elem_of_app. by left.
    + intros name matchingFunction [Heq|Hin]%elem_of_cons.
      * subst override. destruct (Hnew matchingFunction eq_refl) as [Hallowed Hfresh].
        cbn [fst] in *. split.
        -- rewrite Ha'. apply elem_of_app. by left.
        -- intros _ Hnot. rewrite Hfn' by done. by apply Hfresh.
      * destruct (Hnew' name matchingFunction Hin) as [Hallowed Hfresh].
        split; [done|]. intros Hkeys Hnot. cbn [map] in Hkeys.
        apply NoDup_cons in Hkeys as [Hhead Hkeys]. apply Hfresh; [done|].
        intros [Hin'|Heq]%Hold; [done|]. injection Heq as Heq. apply Hhead.
        rewrite <- Heq. apply list_elem_of_In, in_map_iff.
        exists (name, Some matchingFunction). split; [done|]. by apply list_elem_of_In.
Qed.

(** ** More on the fetch and delay coordinator *)
















